(** * LAEH2: lightweight asynchronous error handling for Node.js

    A shallow embedding of [lib/laeh2.js]: the error normalizer [_e], the
    asynchronous-boundary wrapper [_x] and the lean stack-trace renderer
    installed by [leanStacks] as [Error.prepareStackTrace]. *)

From Stdlib Require Import String Ascii List ZArith Lia DecimalString.
From stdpp Require Import base list strings.
Import ListNotations.
Open Scope string_scope.
Open Scope list_scope.

(** ** JavaScript values *)

Module Js.

(** Function values, plain objects and [Error] instances are references;
    the host program decides what the first two do. *)
Abbreviation fun_id := nat.
Abbreviation obj_id := nat.
Abbreviation ref := nat.

(** Numbers are restricted to the integers and [NaN]. *)
Inductive value : Type :=
| VUndefined
| VNull
| VBool (b : bool)
| VNum (n : Z)
| VNaN
| VStr (s : string)
| VObj (o : obj_id)
| VFun (f : fun_id)
| VErr (r : ref).

Definition nonempty (s : string) : bool :=
  match s with EmptyString => false | String _ _ => true end.

(** [if (v)]: the falsy values are [undefined], [null], [false], [0],
    [NaN] and the empty string. *)
Definition truthy (v : value) : bool :=
  match v with
  | VUndefined | VNull | VNaN => false
  | VBool b => b
  | VNum n => negb (n =? 0)%Z
  | VStr s => nonempty s
  | VObj _ | VFun _ | VErr _ => true
  end.

(** [typeof v === 'function'] *)
Definition is_function (v : value) : bool :=
  match v with VFun _ => true | _ => false end.

(** [v instanceof Error] *)
Definition instanceof_Error (v : value) : bool :=
  match v with VErr _ => true | _ => false end.

(** [typeof v === 'object'] *)
Definition typeof_object (v : value) : bool :=
  match v with VNull | VObj _ | VErr _ => true | _ => false end.

(** [String(v)]: primitives are printed here, objects and functions by
    the host ([toString] methods, function source text). *)
Definition String_ (host_string : value -> string) (v : value) : string :=
  match v with
  | VUndefined => "undefined"
  | VNull => "null"
  | VBool true => "true"
  | VBool false => "false"
  | VNum n => NilZero.string_of_int (Z.to_int n)
  | VNaN => "NaN"
  | VStr s => s
  | VObj _ | VFun _ | VErr _ => host_string v
  end.

(** A V8 call site, as handed to [Error.prepareStackTrace]; [None] is a
    [null] or [undefined] answer. *)
Record CallSite : Type := mkCallSite {
  getFileName : option string;
  getLineNumber : option nat;
  isEval : bool;
  isNative : bool
}.

(** An [Error] instance: the properties the library reads and writes, and
    the call sites the engine captured when the object was created. *)
Record Error : Type := mkError {
  message : string;
  meta : value;
  prev : option ref;
  callSites : list CallSite
}.

(** The store of [Error] instances, addressed by position. *)
Abbreviation heap := (list Error).

End Js.
Export Js.

(** ** String helpers of the renderer *)

Module Str.

Fixpoint drop (k : nat) (s : string) : string :=
  match k, s with
  | S k', String _ s' => drop k' s'
  | _, _ => s
  end.

(** [s.replace(re, rep)] for a regular expression [re] without the [g]
    flag that matches exactly the literal [pat]: the leftmost occurrence
    is replaced. *)
Fixpoint replace_first (pat rep s : string) : string :=
  if String.prefix pat s then rep +:+ drop (String.length pat) s
  else match s with
       | EmptyString => EmptyString
       | String c s' => String c (replace_first pat rep s')
       end.

(** [s.replace(/pat/g, rep)] for a non-empty literal [pat]: every
    occurrence, scanning left to right without overlap; [skip] counts the
    characters of the occurrence just replaced that are still ahead. *)
Fixpoint replace_all_from (pat rep : string) (skip : nat) (s : string) : string :=
  match s with
  | EmptyString => EmptyString
  | String c s' =>
      match skip with
      | S k => replace_all_from pat rep k s'
      | O =>
          if String.prefix pat s
          then rep +:+ replace_all_from pat rep (String.length pat - 1) s'
          else String c (replace_all_from pat rep 0 s')
      end
  end.

Definition replace_all (pat rep s : string) : string :=
  replace_all_from pat rep 0 s.

(** [s.charAt(0)] *)
Definition charAt0 (s : string) : string :=
  match s with
  | EmptyString => EmptyString
  | String c _ => String c EmptyString
  end.

(** The characters [.] of a regular expression does not match. *)
Definition line_terminator (c : ascii) : bool :=
  (Ascii.eqb c "010" || Ascii.eqb c "013")%bool.

(** [laeh2.js$] matched at the very start of [s]; the dot is a wildcard. *)
Definition laeh2_js_here (s : string) : bool :=
  match s with
  | String "l" (String "a" (String "e" (String "h" (String "2"
      (String c (String "j" (String "s" EmptyString))))))) =>
      negb (line_terminator c)
  | _ => false
  end.

(** [/.*?laeh2.js$/.exec(s)] is not [null]: the expression is not
    anchored on the left, so every start position is tried. *)
Fixpoint matches_laeh2 (s : string) : bool :=
  (laeh2_js_here s ||
   match s with
   | EmptyString => false
   | String _ s' => matches_laeh2 s'
   end)%bool.

(** [s] ends with [suf]. *)
Definition ends_with (suf s : string) : Prop := exists p, s = p +:+ suf.

(** [s] begins with the character [c]. *)
Definition begins_with (c : ascii) (s : string) : Prop :=
  exists t, s = String c t.

End Str.

(** ** The lean stack renderer, [leanStacks] *)

Module Lean.

(** The arguments of [leanStacks]. A separator is [None] when it is not
    passed; [prettyMeta] goes to [JSON.stringify] untouched. *)
Record config : Type := mkConfig {
  hiding : bool;
  prettyMeta : value;
  frameSeparator : option string;
  fiberSeparator : option string
}.

(** [sep || dflt] *)
Definition or_default (sep : option string) (dflt : string) : string :=
  match sep with
  | Some s => if nonempty s then s else dflt
  | None => dflt
  end.

Section Renderer.

(** What the engine provides: [process.cwd()], [JSON.stringify(v, null,
    indent)] and the string form of objects and functions. Metadata is
    taken to be serializable. *)
Variable cwd : string.
Variable JSON_stringify : value -> value -> string.
Variable host_string : value -> string.

Variable cfg : config.

(** Line 99: the shortened file location. *)
Definition shorten (file : option string) : string :=
  let name := match file with
              | Some f => if nonempty f then f else "?"
              | None => "?"
              end in
  Str.replace_all "node_modules" "$" (Str.replace_first cwd "." name).

(** Line 101: the frame is skipped. *)
Definition hidden (n : string) : bool :=
  let c := Str.charAt0 n in
  (hiding cfg &&
   ((negb (String.eqb c ".") && negb (String.eqb c "/"))
    || Str.matches_laeh2 n))%bool.

(** Line 103: the line indicator. *)
Definition line_indicator (f : CallSite) : string :=
  (match getLineNumber f with
   | Some (S k) => NilEmpty.string_of_uint (Nat.to_uint (S k))
   | Some O | None => "?"
   end)
  +:+ (if isEval f then "*" else EmptyString)
  +:+ (if isNative f then "+" else EmptyString).

(** [stack[stack.length - 1] += t]; on an empty array the assignment
    creates the property [-1], which neither [length] nor [join] sees. *)
Fixpoint append_to_last (stack : list string) (t : string) : list string :=
  match stack with
  | [] => []
  | [x] => [x +:+ t]
  | x :: rest => x :: append_to_last rest t
  end.

(** One turn of the loop of lines 97-109 on [stack] and [prev]. *)
Definition frame_step (st : list string * option string) (f : CallSite)
  : list string * option string :=
  let '(stack, prev) := st in
  let n := shorten (getFileName f) in
  if hidden n then st
  else
    let ln := line_indicator f in
    (if bool_decide (prev = Some n)
     then append_to_last stack (" < " +:+ ln)
     else stack ++ [n +:+ "(" +:+ ln],
     Some n).

(** Lines 92-111: the frame entries. *)
Definition entries (s : list CallSite) : list string :=
  let stack := fst (fold_left frame_step s ([], None)) in
  map (fun x => x +:+ ")") stack.

(** [Error.prepareStackTrace(e, s)], lines 91-126. [prev_stack] is the
    text the engine returns for [e.prev.stack] when [e.prev] is set; how
    the engine makes that text, and whether it keeps it from an earlier
    read, is not the library's matter. *)
Definition prepareStackTrace (e : Error) (prev_stack : option string)
    (s : list CallSite) : string :=
  let fs := or_default (frameSeparator cfg) " < " in
  let stack := entries s in
  let msg := EmptyString in
  let msg := if nonempty (message e) then msg +:+ (message e +:+ fs) else msg in
  let msg := if truthy (meta e)
             then msg +:+ ((if typeof_object (meta e)
                            then JSON_stringify (meta e) (prettyMeta cfg)
                            else String_ host_string (meta e)) +:+ " ")
             else msg in
  let msg := msg +:+ String.concat fs stack in
  let msg := match prev_stack with
             | Some p => msg +:+ (or_default (fiberSeparator cfg) " << " +:+ p)
             | None => msg
             end in
  msg.

(** *** The renderer, described

    The definitions below do not come from the code: they say what the
    loop and the composition are meant to produce, and are compared
    with the code further down. *)

(** Each frame with its shortened location and line indicator. *)
Definition located (s : list CallSite) : list (string * string) :=
  map (fun f => (shorten (getFileName f), line_indicator f)) s.

(** The frames that are not skipped. *)
Definition survivors (s : list CallSite) : list (string * string) :=
  List.filter (fun p => negb (hidden (fst p))) (located s).

(** The maximal runs of consecutive frames with the same location: the
    location and the line indicators of the run, in order. *)
Fixpoint runs (l : list (string * string)) : list (string * list string) :=
  match l with
  | [] => []
  | (n, ln) :: rest =>
      match runs rest with
      | (n', lns) :: gs =>
          if bool_decide (n = n') then (n, ln :: lns) :: gs
          else (n, [ln]) :: (n', lns) :: gs
      | [] => [(n, [ln])]
      end
  end.

(** The frames of a list of runs, one by one. *)
Definition flatten (gs : list (string * list string)) : list (string * string) :=
  concat (map (fun g => map (pair (fst g)) (snd g)) gs).

(** No two neighbouring runs share a location. *)
Fixpoint neighbours_differ (gs : list (string * list string)) : Prop :=
  match gs with
  | g :: ((g' :: _) as rest) => fst g <> fst g' /\ neighbours_differ rest
  | _ => True
  end.

(** One more frame at the end of a list of runs. *)
Fixpoint push (gs : list (string * list string)) (n ln : string)
  : list (string * list string) :=
  match gs with
  | [] => [(n, [ln])]
  | [g] => if bool_decide (n = fst g) then [(fst g, snd g ++ [ln])]
           else [g; (n, [ln])]
  | g :: rest => g :: push rest n ln
  end.

(** The location of the last frame of a list of runs. *)
Definition last_location (gs : list (string * list string)) : option string :=
  fst <$> last gs.

(** An entry of [stack] before line 111 closes it. *)
Definition open_run (g : string * list string) : string :=
  fst g +:+ "(" +:+ String.concat " < " (snd g).

(** A run rendered with its line indicators joined by [sep]. *)
Definition render_run (sep : string) (g : string * list string) : string :=
  fst g +:+ "(" +:+ String.concat sep (snd g) +:+ ")".

(** The text of one boundary: [prepareStackTrace] without the link. *)
Definition segment (e : Error) : string :=
  prepareStackTrace e None (callSites e).

(** The single-boundary text as the specification words it: the message,
    the frame separator, the metadata as JSON followed by one space when
    metadata is attached, the frame entries joined by the frame
    separator. *)
Definition described_segment (e : Error) : string :=
  let fs := or_default (frameSeparator cfg) " < " in
  message e +:+ fs
  +:+ (match meta e with
       | VUndefined => EmptyString
       | m => JSON_stringify m (prettyMeta cfg) +:+ " "
       end)
  +:+ String.concat fs (entries (callSites e)).


End Renderer.

End Lean.

(** ** The error normalizer [_e] and the boundary wrapper [_x] *)

Module Laeh.

(** How a statement completes. *)
Inductive completion (A : Type) : Type :=
| Normal (a : A)
| Throw (v : value).
Arguments Normal {A} a.
Arguments Throw {A} v.

(** The two calls a wrapper makes: [func.apply(null, a)] on line 65 and
    [cb(e)] on line 77. *)
Inductive role : Type := Logic | Handler.

Record event : Type := Call {
  ev_role : role;
  ev_callee : value;
  ev_args : list value
}.

(** The store of errors and the calls made so far. *)
Record world : Type := mkWorld {
  errors : heap;
  calls : list event
}.

(** Computations that read and write the world and may throw. *)
Definition M (A : Type) : Type := world -> completion A * world.

Definition ret {A} (a : A) : M A := fun w => (Normal a, w).

Definition bind {A B} (m : M A) (k : A -> M B) : M B :=
  fun w =>
    match m w with
    | (Normal a, w') => k a w'
    | (Throw v, w') => (Throw v, w')
    end.

Definition throw {A} (v : value) : M A := fun w => (Throw v, w).

(** [try { m } catch (e) { handler e }] *)
Definition try_catch {A} (m : M A) (handler : value -> M A) : M A :=
  fun w =>
    match m w with
    | (Normal a, w') => (Normal a, w')
    | (Throw v, w') => handler v w'
    end.

Notation "'do' x <- m ; k" := (bind m (fun x => k))
  (at level 10, x name, m at level 100, k at level 200).
Notation "'run' m ; k" := (bind m (fun _ => k))
  (at level 10, m at level 100, k at level 200).

(** [new Error(msg)]: a fresh object holding the call sites the engine
    captured. *)
Definition new_Error (msg : string) (sites : list CallSite) : M ref :=
  fun w =>
    (Normal (length (errors w)),
     mkWorld (errors w ++ [mkError msg VUndefined None sites]) (calls w)).

Definition with_meta (m : value) (e : Error) : Error :=
  mkError (message e) m (prev e) (callSites e).

Definition with_prev (p : ref) (e : Error) : Error :=
  mkError (message e) (meta e) (Some p) (callSites e).

(** [e.meta = m] *)
Definition set_meta (r : ref) (m : value) : M unit :=
  fun w => (Normal tt, mkWorld (alter (with_meta m) r (errors w)) (calls w)).

(** [e.prev = p] *)
Definition set_prev (r : ref) (p : ref) : M unit :=
  fun w => (Normal tt, mkWorld (alter (with_prev p) r (errors w)) (calls w)).

(** The closure of a function returned by [_x]: its variables [cb],
    [chk], [func] and [prev]. *)
Record wrapper : Type := mkWrapper {
  w_cb : value;
  w_chk : value;
  w_func : value;
  w_prev : ref
}.

Section Library.

(** The wrapped logic may call the wrapper it runs in. [reentry f a h] is
    the last argument of such a call made while the function [f] runs
    with the arguments [a] on the store [h]: the first that is a function
    if there is one, and [undefined] when there is none or the wrapper is
    not called again. *)
Variable reentry : fun_id -> list value -> heap -> value.

(** The host program: what a function value does to the store of errors
    when called, and how it completes. *)
Variable host : fun_id -> list value -> heap -> completion value * heap.

(** The string form of objects and functions. *)
Variable host_string : value -> string.

(** The call sites the engine captures for an error created on a given
    line of [laeh2.js] during the current activation. *)
Variable capture : nat -> list CallSite.

(** The message of [new Error(v)]. *)
Definition Error_message (v : value) : string :=
  match v with
  | VUndefined => EmptyString
  | _ => String_ host_string v
  end.

(** Calling the value [f]; a value that is not a function makes the
    engine throw a [TypeError]. *)
Definition call (who : role) (line : nat) (f : value) (args : list value)
  : M value :=
  match f with
  | VFun id =>
      fun w =>
        let w1 := mkWorld (errors w) (calls w ++ [Call who f args]) in
        let '(c, h) := host id args (errors w1) in
        (c, mkWorld h (calls w1))
  | _ =>
      do r <- new_Error "not a function" (capture line) ;
      throw (VErr r)
  end.

(** Lines 28-36; [e instanceof Error] is the match on [VErr]. *)
Definition _e (e meta : value) : M unit :=
  if truthy e then
    do r <- (match e with
          | VErr r => ret r
          | _ => new_Error (Error_message e) (capture 31)
          end) ;
    run (if truthy meta then set_meta r meta else ret tt) ;
    throw (VErr r)
  else ret tt.

(** Lines 44-52: the checks and the capture of [prev]. *)
Definition _x (cb chk func : value) : M wrapper :=
  if (truthy cb && negb (is_function cb))%bool then
    do r <- new_Error "cb is not a function" (capture 47) ;
    throw (VErr r)
  else if negb (is_function func) then
    do r <- new_Error "func is not a function" (capture 50) ;
    throw (VErr r)
  else
    do prev <- new_Error EmptyString (capture 52) ;
    ret (mkWrapper cb chk func prev).

(** Lines 58-60: [cb] is taken from the arguments when it is not set. *)
Definition adopt (w : wrapper) (a : list value) : wrapper :=
  if negb (truthy (w_cb w)) then
    mkWrapper
      (match last a with
       | Some v => if is_function v then v else VNull
       | None => VNull
       end)
      (w_chk w) (w_func w) (w_prev w)
  else w.

(** [a[0]] *)
Definition first_arg (a : list value) : value :=
  match a with
  | [] => VUndefined
  | v :: _ => v
  end.

(** Lines 62-65, after [cb] is settled. *)
Definition attempt (w : wrapper) (a : list value) : M value :=
  run (if truthy (w_chk w) then _e (first_arg a) VUndefined else ret tt) ;
  call Logic 65 (w_func w) a.

(** Lines 67-78: the [catch] block. *)
Definition recover (w : wrapper) (e : value) : M value :=
  do r <- (match e with
        | VErr r => ret r
        | _ => new_Error (Error_message e) (capture 69)
        end) ;
  run set_prev r (w_prev w) ;
  if negb (truthy (w_cb w)) then
    do m <- new_Error "missing callback" (capture 75) ;
    throw (VErr m)
  else
    call Handler 77 (w_cb w) [VErr r].

(** The closure when the [try] block is left. [cb] is one variable for
    all the calls of the wrapper: while the logic runs on line 65, a call
    of the same wrapper executes lines 58-60 on it. When line 63 throws,
    the logic does not run. *)
Definition reentered (w : wrapper) (a : list value) (σ : world) : wrapper :=
  if (truthy (w_chk w) && truthy (first_arg a))%bool then w
  else match w_func w with
       | VFun f => adopt w [reentry f a (errors σ)]
       | _ => w
       end.

(** Lines 54-79: one call of the returned function with arguments [a].
    The function returns [undefined]; the closure is returned with it,
    since [cb] may have been assigned. The catch block reads [cb] as the
    [try] block left it. *)
Definition invoke (w : wrapper) (a : list value) (σ : world)
  : wrapper * (completion unit * world) :=
  let w' := adopt w a in
  let w'' := reentered w' a σ in
  (w'', (run try_catch (attempt w' a) (recover w'') ; ret tt) σ).

(** *** The catch block, described *)

(** Lines 68-69: the error a raised value becomes, and the store that
    holds it. *)
Definition normalized (v : value) (h : heap) : ref * heap :=
  match v with
  | VErr r => (r, h)
  | _ => (length h, h ++ [mkError (Error_message v) VUndefined None (capture 69)])
  end.

(** Line 70 after them: the store once the error points to [prev]. *)
Definition linked (w : wrapper) (v : value) (h : heap) : ref * heap :=
  let '(r, h1) := normalized v h in
  (r, alter (with_prev (w_prev w)) r h1).

(** What the caller of a wrapper sees of the handler's completion. *)
Definition returned {A} (c : completion A) : completion unit :=
  match c with
  | Normal _ => Normal tt
  | Throw v => Throw v
  end.

(** Calls of one wrapper one after the other; before each call the host
    may have changed the store. *)
Fixpoint invoke_all (w : wrapper)
    (todo : list ((heap -> heap) * list value)) (σ : world)
  : wrapper * world :=
  match todo with
  | [] => (w, σ)
  | (between, a) :: rest =>
      let '(w', (_, σ')) :=
        invoke w a (mkWorld (between (errors σ)) (calls σ)) in
      invoke_all w' rest σ'
  end.

End Library.

(** A function that returns yields [undefined] when it is a wrapper. *)
Definition undefined_on_return {A} (c : completion A) : completion value :=
  match c with
  | Normal _ => Normal VUndefined
  | Throw v => Throw v
  end.

(** Wrappers used as function values: [id] names the function returned
    by [_x] whose closure is [w]. A wrapper may call the wrappers listed
    after it and the functions of the host. *)
Fixpoint nest (reentry : fun_id -> list value -> heap -> value)
    (host : fun_id -> list value -> heap -> completion value * heap)
    (host_string : value -> string) (capture : nat -> list CallSite)
    (ws : list (fun_id * wrapper))
  : fun_id -> list value -> heap -> completion value * heap :=
  match ws with
  | [] => host
  | (id, w) :: rest =>
      fun f a h =>
        if Nat.eqb f id then
          let '(c, σ) :=
            snd (invoke reentry (nest reentry host host_string capture rest)
                   host_string capture w a (mkWorld h [])) in
          (undefined_on_return c, errors σ)
        else nest reentry host host_string capture rest f a h
  end.

(** The origin error of the last wrapper of [ws], or [d] without one. *)
Definition last_origin (ws : list (fun_id * wrapper)) (d : ref) : ref :=
  match last ws with
  | Some (_, w) => w_prev w
  | None => d
  end.

(** Each wrapper of the list checks its first argument and hands its
    errors to the next one; the last hands them to the host function
    [c]. *)
Fixpoint relay (c : fun_id) (ws : list (fun_id * wrapper)) : Prop :=
  match ws with
  | [] => True
  | (_, w) :: rest =>
      truthy (w_chk w) = true /\
      w_cb w = VFun (match rest with
                     | [] => c
                     | (id', _) :: _ => id'
                     end) /\
      relay c rest
  end.

End Laeh.

(** ** Sample data *)

Module Sample.
Import Lean.

Definition cwd : string := "/home/app".

Definition site (file : string) (line : nat) : CallSite :=
  mkCallSite (Some file) (Some line) false false.

(** A [JSON.stringify] that knows empty objects only. *)
Definition json (v indent : value) : string :=
  match v with
  | VObj _ | VErr _ => "{}"
  | _ => "null"
  end.

Definition host_string (v : value) : string :=
  match v with
  | VFun _ => "function () {}"
  | _ => "[object Object]"
  end.

Definition newline : string := String "010" EmptyString.

Definition defaults : config := mkConfig true VUndefined None None.

(** [leanStacks(true, null, '\n', '\n<<\n')] *)
Definition for_express : config :=
  mkConfig true VNull (Some newline) (Some (newline +:+ "<<" +:+ newline)).

(** Two frames of one file, as in [./ex1.js(7 < 13)]. *)
Definition origin_sites : list CallSite :=
  [site "/home/app/lib/laeh2.js" 52;
   site "/home/app/ex1.js" 7;
   site "/home/app/ex1.js" 13;
   site "module.js" 432].

(** The frames of an error made by [_e] on line 31, called on line 9 of
    [ex1.js] by the wrapped logic. *)
Definition thrown_sites : list CallSite :=
  [site "/home/app/lib/laeh2.js" 31;
   site "/home/app/ex1.js" 9;
   site "/home/app/lib/laeh2.js" 65].

(** An error without a message, like the [prev] of every wrapper. *)
Definition origin : Error := mkError EmptyString VUndefined None origin_sites.

(** A host whose function 11 throws the string [x], whose function 15
    throws a new error made on line 9 of [ex1.js], and whose other
    functions return at once. *)
Definition host (f : fun_id) (args : list value) (h : heap)
  : Laeh.completion value * heap :=
  match f with
  | 11 => (Laeh.Throw (VStr "x"), h)
  | 15 => (Laeh.Throw (VErr (length h)),
           h ++ [mkError "unexpected thing" VUndefined None thrown_sites])
  | _ => (Laeh.Normal VUndefined, h)
  end.

(** No function of this host calls a wrapper again. *)
Definition no_reentry (f : fun_id) (args : list value) (h : heap) : value :=
  VUndefined.

(** The function 16 calls the wrapper it runs in with the function 10 as
    last argument. *)
Definition reentry_by_16 (f : fun_id) (args : list value) (h : heap) : value :=
  match f with
  | 16 => VFun 10
  | _ => VUndefined
  end.

(** Errors made on line 52 capture [origin_sites], and those of the
    guards on lines 47 and 50 the same callers. The others are made while
    the wrapper runs, called by [fs.js]: on line 31 inside [_e] called
    from line 63, or on their own line of the wrapper once the logic has
    returned or thrown. *)
Definition capture_from (origin_sites : list CallSite) (line : nat)
  : list CallSite :=
  if Nat.eqb line 52 then origin_sites
  else if (Nat.eqb line 47 || Nat.eqb line 50)%bool then
    site "/home/app/lib/laeh2.js" line :: tl origin_sites
  else if Nat.eqb line 31 then
    [site "/home/app/lib/laeh2.js" 31;
     site "/home/app/lib/laeh2.js" 63;
     site "fs.js" 271]
  else [site "/home/app/lib/laeh2.js" line; site "fs.js" 271].

Definition capture : nat -> list CallSite := capture_from origin_sites.

Definition empty : Laeh.world := Laeh.mkWorld [] [].

(** A store with the origin error of a wrapper at 0 and an error that
    carries metadata at 1. *)
Definition store : heap :=
  [origin; mkError "boom" (VObj 1) None thrown_sites].

(** [_x(f10, true, f11)] and [_x(null, true, f11)] with the origin error
    at 0. *)
Definition with_handler : Laeh.wrapper :=
  Laeh.mkWrapper (VFun 10) (VBool true) (VFun 11) 0.

Definition without_handler : Laeh.wrapper :=
  Laeh.mkWrapper VNull (VBool true) (VFun 11) 0.

(** Three wrappers made at three places; each hands its errors to the
    next, the last to the host function 10. Their origin errors are at
    0, 1 and 2, and a thrown error is at 3. *)
Definition origin_at (file : string) (line : nat) : Error :=
  mkError EmptyString VUndefined None [site file line].

Definition trio_store : heap :=
  [origin_at "/home/app/a.js" 10;
   origin_at "/home/app/b.js" 20;
   origin_at "/home/app/c.js" 30;
   mkError "x" VUndefined None thrown_sites].

Definition wrapper_a : Laeh.wrapper :=
  Laeh.mkWrapper (VFun 2) (VBool true) (VFun 12) 0.
Definition wrapper_b : Laeh.wrapper :=
  Laeh.mkWrapper (VFun 3) (VBool true) (VFun 12) 1.
Definition wrapper_c : Laeh.wrapper :=
  Laeh.mkWrapper (VFun 10) (VBool true) (VFun 12) 2.

Definition trio : list (fun_id * Laeh.wrapper) :=
  [(1, wrapper_a); (2, wrapper_b); (3, wrapper_c)].

(** The first two wrappers alone: the second hands its errors to the
    host function 3. *)
Definition duo : list (fun_id * Laeh.wrapper) := firstn 2 trio.

End Sample.

(** ** Occurrences of a literal *)

Module Scan.

(** [pat] occurs somewhere in [s]: the regular expression made of the
    literal [pat] matches [s]. *)
Fixpoint occurs (pat s : string) : bool :=
  (String.prefix pat s ||
   match s with
   | EmptyString => false
   | String _ s' => occurs pat s'
   end)%bool.

(** A frame of a Node.js core file and one of a dependency. *)
Definition core_site : CallSite := Sample.site "module.js" 432.

Definition vendored_site : CallSite :=
  Sample.site "/home/app/node_modules/redis/index.js" 88.

(** [leanStacks(true, null, '', '')] *)
Definition empty_separators : Lean.config :=
  Lean.mkConfig true VNull (Some EmptyString) (Some EmptyString).

(** [leanStacks(false)] *)
Definition showing_all : Lean.config :=
  Lean.mkConfig false VUndefined None None.

End Scan.

(** ** More sample wrappers *)

Module Cases.

(** [_x(f10, true, f12)] and [_x(f10, false, f12)] with the origin error at
    0: the function 12 of the sample host returns at once. *)
Definition quiet : Laeh.wrapper :=
  Laeh.mkWrapper (VFun 10) (VBool true) (VFun 12) 0.

Definition unchecked : Laeh.wrapper :=
  Laeh.mkWrapper (VFun 10) (VBool false) (VFun 12) 0.

(** A world that holds the origin error of these wrappers. *)
Definition started : Laeh.world := Laeh.mkWorld [Sample.origin] [].

End Cases.

(** * Properties *)

(** ** Strings *)

Module StrFacts.

Lemma append_nil (b : string) : EmptyString +:+ b = b.
Proof. reflexivity. Qed.

Lemma append_cons (x : ascii) (a b : string) :
  String x a +:+ b = String x (a +:+ b).
Proof. reflexivity. Qed.

Lemma append_assoc (a b c : string) : (a +:+ b) +:+ c = a +:+ (b +:+ c).
Proof.
  induction a as [|x a IH]; [reflexivity |].
  rewrite !append_cons. now rewrite IH.
Qed.

Lemma append_empty_r (a : string) : a +:+ EmptyString = a.
Proof.
  induction a as [|x a IH]; [reflexivity |].
  rewrite append_cons. now rewrite IH.
Qed.

(** A name that ends in [laeh2.js] is matched by the expression of
    line 101. *)
Lemma matches_laeh2_suffix (p : string) :
  Str.matches_laeh2 (p +:+ "laeh2.js") = true.
Proof.
  induction p as [|c p IH]; [reflexivity |].
  rewrite append_cons. cbn [Str.matches_laeh2]. rewrite IH. apply orb_true_r.
Qed.

Lemma charAt0_begins (c : ascii) (s : string) :
  String.eqb (Str.charAt0 s) (String c EmptyString) = true ->
  Str.begins_with c s.
Proof.
  destruct s as [|x s]; intros H; apply String.eqb_eq in H;
    [discriminate | injection H as ->; now exists s].
Qed.

(** [join] when one more item is pushed. *)
Lemma concat_snoc (sep : string) (l : list string) (x y : string) :
  String.concat sep ((x :: l) ++ [y]) = String.concat sep (x :: l) +:+ sep +:+ y.
Proof.
  revert x. induction l as [|z l IH]; intros x.
  - reflexivity.
  - change (String.concat sep ((x :: z :: l) ++ [y]))
      with (x +:+ sep +:+ String.concat sep ((z :: l) ++ [y])).
    rewrite IH.
    change (String.concat sep (x :: z :: l))
      with (x +:+ sep +:+ String.concat sep (z :: l)).
    now rewrite !append_assoc.
Qed.

End StrFacts.

(** ** The frame loop *)

Module LeanFacts.
Import Lean StrFacts.

Section Loop.

Variable cwd : string.
Variable cfg : config.

Local Abbreviation shorten := (shorten cwd).
Local Abbreviation hidden := (hidden cfg).
Local Abbreviation frame_step := (frame_step cwd cfg).
Local Abbreviation survivors := (survivors cwd cfg).
Local Abbreviation entries := (entries cwd cfg).

Lemma runs_cons (n ln : string) (l : list (string * string)) :
  runs ((n, ln) :: l) =
  match runs l with
  | (n', lns) :: gs =>
      if bool_decide (n = n') then (n, ln :: lns) :: gs
      else (n, [ln]) :: (n', lns) :: gs
  | [] => [(n, [ln])]
  end.
Proof. reflexivity. Qed.

Lemma runs_nil_inv (l : list (string * string)) : runs l = [] -> l = [].
Proof.
  destruct l as [|[n ln] l]; [reflexivity |].
  rewrite runs_cons. destruct (runs l) as [|[n' lns] gs]; [discriminate |].
  case_bool_decide; discriminate.
Qed.

(** The runs, put end to end, are the frames. *)
Lemma runs_flatten (l : list (string * string)) : flatten (runs l) = l.
Proof.
  induction l as [|[n ln] l IH]; [reflexivity |].
  rewrite runs_cons. destruct (runs l) as [|[n' lns] gs] eqn:E.
  - apply runs_nil_inv in E. now subst.
  - case_bool_decide as Hn.
    + subst n'. rewrite <- IH. reflexivity.
    + rewrite <- IH. reflexivity.
Qed.

(** No run is empty. *)
Lemma runs_nonempty (l : list (string * string)) :
  Forall (fun g => snd g <> []) (runs l).
Proof.
  induction l as [|[n ln] l IH]; [constructor |].
  rewrite runs_cons. destruct (runs l) as [|[n' lns] gs].
  - repeat constructor. discriminate.
  - inversion IH; subst. case_bool_decide.
    + constructor; [discriminate | assumption].
    + constructor; [discriminate |]. now constructor.
Qed.

(** Every run is as long as it can be. *)
Lemma runs_maximal (l : list (string * string)) : neighbours_differ (runs l).
Proof.
  induction l as [|[n ln] l IH]; [exact I |].
  rewrite runs_cons. destruct (runs l) as [|[n' lns] gs].
  - exact I.
  - case_bool_decide as Hn.
    + subst n'. destruct gs; [exact I |]. exact IH.
    + split; [exact Hn | exact IH].
Qed.

Lemma push_head (g : string * list string) (gs : list (string * list string))
    (n ln : string) :
  exists lns' gs', push (g :: gs) n ln = (fst g, lns') :: gs'.
Proof.
  destruct gs as [|g' gs].
  - cbn [push]. case_bool_decide; destruct g; eauto.
  - destruct g. cbn [push fst]. eauto.
Qed.

Lemma push_cons (g g' : string * list string) (gs : list (string * list string))
    (n ln : string) :
  push (g :: g' :: gs) n ln = g :: push (g' :: gs) n ln.
Proof. reflexivity. Qed.

(** A frame added after the others joins the last run or opens a new
    one. *)
Lemma runs_snoc (l : list (string * string)) (n ln : string) :
  runs (l ++ [(n, ln)]) = push (runs l) n ln.
Proof.
  induction l as [|[m lm] l IH]; [reflexivity |].
  change (((m, lm) :: l) ++ [(n, ln)]) with ((m, lm) :: (l ++ [(n, ln)])).
  rewrite !runs_cons, IH.
  destruct (runs l) as [|[n' lns] gs].
  - cbn [push fst snd].
    repeat case_bool_decide; subst; try congruence; reflexivity.
  - destruct gs as [|g' gs].
    + cbn [push fst snd].
      repeat (case_bool_decide; cbn [push fst snd]); subst;
        try congruence; reflexivity.
    + rewrite push_cons.
      case_bool_decide as H1; rewrite push_cons; reflexivity.
Qed.

Lemma last_location_push (gs : list (string * list string)) (n ln : string) :
  last_location (push gs n ln) = Some n.
Proof.
  induction gs as [|g gs IH]; [reflexivity |].
  destruct gs as [|g' gs].
  - cbn [push]. case_bool_decide as H; [now rewrite H | reflexivity].
  - rewrite push_cons. destruct (push_head g' gs n ln) as (lns' & gs' & E).
    rewrite E in *. exact IH.
Qed.

(** What [push] does to the array [stack] of the loop. *)
Lemma open_push (gs : list (string * list string)) (n ln : string) :
  Forall (fun g => snd g <> []) gs ->
  map open_run (push gs n ln) =
  if bool_decide (last_location gs = Some n)
  then append_to_last (map open_run gs) (" < " +:+ ln)
  else map open_run gs ++ [n +:+ "(" +:+ ln].
Proof.
  induction gs as [|g gs IH]; intros Hne; [reflexivity |].
  inversion Hne as [|? ? Hg Hgs]; subst.
  destruct gs as [|g' gs].
  - clear IH. destruct g as [m lns]. cbn [push fst snd] in *.
    change (last_location [(m, lns)]) with (Some m).
    destruct (decide (n = m)) as [->|Hn].
    + rewrite !bool_decide_eq_true_2 by reflexivity.
      cbn [map append_to_last]. unfold open_run. cbn [fst snd].
      destruct lns as [|x lns]; [now destruct Hg |].
      rewrite concat_snoc. now rewrite !append_assoc.
    + rewrite !bool_decide_eq_false_2 by congruence. reflexivity.
  - rewrite push_cons. cbn [map]. rewrite IH by assumption.
    change (last_location (g :: g' :: gs)) with (last_location (g' :: gs)).
    case_bool_decide; reflexivity.
Qed.

Lemma frame_step_hidden (st : list string * option string) (f : CallSite) :
  hidden (shorten (getFileName f)) = true -> frame_step st f = st.
Proof. intros H. unfold Lean.frame_step. destruct st. now rewrite H. Qed.

Lemma frame_step_shown (gs : list (string * list string)) (f : CallSite) :
  hidden (shorten (getFileName f)) = false ->
  Forall (fun g => snd g <> []) gs ->
  frame_step (map open_run gs, last_location gs) f =
  (map open_run (push gs (shorten (getFileName f)) (line_indicator f)),
   last_location (push gs (shorten (getFileName f)) (line_indicator f))).
Proof.
  intros H Hne. unfold Lean.frame_step. rewrite H.
  rewrite last_location_push, open_push by assumption. reflexivity.
Qed.

Lemma survivors_cons (f : CallSite) (s : list CallSite) :
  survivors (f :: s) =
  if hidden (shorten (getFileName f)) then survivors s
  else (shorten (getFileName f), line_indicator f) :: survivors s.
Proof.
  unfold Lean.survivors, located. cbn [map List.filter fst].
  destruct (hidden _); reflexivity.
Qed.

(** The loop of lines 97-109, started after the frames [l0]. *)
Lemma loop_runs (s : list CallSite) (l0 : list (string * string)) :
  fold_left frame_step s (map open_run (runs l0), last_location (runs l0)) =
  (map open_run (runs (l0 ++ survivors s)),
   last_location (runs (l0 ++ survivors s))).
Proof.
  revert l0. induction s as [|f s IH]; intros l0.
  - cbn [fold_left]. unfold Lean.survivors, located. cbn [map List.filter].
    now rewrite app_nil_r.
  - cbn [fold_left]. rewrite survivors_cons.
    destruct (hidden (shorten (getFileName f))) eqn:Hh.
    + rewrite frame_step_hidden by assumption. apply IH.
    + rewrite frame_step_shown by (assumption || apply runs_nonempty).
      rewrite <- runs_snoc, IH. now rewrite <- app_assoc.
Qed.

Lemma close_open_run (g : string * list string) :
  open_run g +:+ ")" = render_run " < " g.
Proof. unfold open_run, render_run. now rewrite !append_assoc. Qed.

(** Lines 92-111 produce one entry per maximal run of the frames that
    are not skipped. *)
Lemma entries_runs (s : list CallSite) :
  entries s = map (render_run " < ") (runs (survivors s)).
Proof.
  unfold Lean.entries.
  change ([], None) with (map open_run (runs []), last_location (runs [])).
  rewrite loop_runs. cbn [fst app]. rewrite map_map.
  apply map_ext. intros g. apply close_open_run.
Qed.

Lemma survivors_shown (p : string * string) (s : list CallSite) :
  In p (survivors s) ->
  hidden (fst p) = false /\
  In (fst p) (map (fun f => shorten (getFileName f)) s).
Proof.
  unfold Lean.survivors, located. intros H. apply filter_In in H.
  destruct H as [H1 H2]. split.
  - now destruct (hidden (fst p)).
  - apply in_map_iff in H1. destruct H1 as (f & <- & Hf).
    apply in_map_iff. now exists f.
Qed.

(** Every run holds one of the frames it was cut from. *)
Lemma runs_location (l : list (string * string)) (g : string * list string) :
  In g (runs l) -> exists ln, In (fst g, ln) l.
Proof.
  intros Hg. rewrite <- (runs_flatten l).
  pose proof (runs_nonempty l) as Hne. rewrite Forall_forall in Hne.
  assert (Hs : snd g <> []).
  { apply Hne. now apply list_elem_of_In. }
  destruct (snd g) as [|ln lns] eqn:E; [congruence |].
  exists ln. unfold flatten. apply in_concat.
  exists (map (pair (fst g)) (snd g)). split.
  - apply in_map_iff. now exists g.
  - rewrite E. now left.
Qed.

End Loop.

End LeanFacts.

(** ** The renderer *)

Module LeanSpec.
Import Lean StrFacts LeanFacts.

Section Renderer.

Variable cwd : string.
Variable JSON_stringify : value -> value -> string.
Variable host_string : value -> string.
Variable cfg : config.

Local Abbreviation shorten := (shorten cwd).
Local Abbreviation survivors := (survivors cwd cfg).
Local Abbreviation entries := (entries cwd cfg).
Local Abbreviation prepareStackTrace :=
  (prepareStackTrace cwd JSON_stringify host_string cfg).
Local Abbreviation segment := (segment cwd JSON_stringify host_string cfg).
Local Abbreviation described_segment :=
  (described_segment cwd JSON_stringify cfg).

(** C5, amended. Whatever the configuration, the frame entries are the
    maximal runs of consecutive surviving frames with the same shortened
    location, one entry per run, and the line indicators of a run are
    joined by the fixed text [" < "], not by the configured frame
    separator. *)
Theorem runs_are_coalesced (s : list CallSite) :
  entries s = map (render_run " < ") (runs (survivors s)) /\
  flatten (runs (survivors s)) = survivors s /\
  Forall (fun g => snd g <> []) (runs (survivors s)) /\
  neighbours_differ (runs (survivors s)).
Proof.
  split; [apply entries_runs |].
  split; [apply runs_flatten |].
  split; [apply runs_nonempty | apply runs_maximal].
Qed.

(** C8. With hiding enabled, every frame entry is a run whose location
    is the shortened location of a captured frame, begins with [.] or
    [/], and does not end in [laeh2.js]. *)
Theorem hiding_keeps_paths (s : list CallSite) :
  hiding cfg = true ->
  exists gs,
    entries s = map (render_run " < ") gs /\
    Forall (fun g =>
              In (fst g) (map (fun f => shorten (getFileName f)) s) /\
              (Str.begins_with "." (fst g) \/ Str.begins_with "/" (fst g)) /\
              ~ Str.ends_with "laeh2.js" (fst g)) gs.
Proof.
  intros Hh. exists (runs (survivors s)). split; [apply entries_runs |].
  apply Forall_forall. intros g Hg. apply list_elem_of_In in Hg.
  destruct (runs_location _ _ Hg) as [ln Hln].
  apply survivors_shown in Hln. cbn [fst] in Hln. destruct Hln as [Hs Hin].
  split; [exact Hin |].
  unfold hidden in Hs. rewrite Hh in Hs. cbn [andb] in Hs.
  apply orb_false_iff in Hs. destruct Hs as [Hc Hm]. split.
  - apply andb_false_iff in Hc. destruct Hc as [Hc|Hc];
      apply negb_false_iff in Hc; [left | right];
      now apply charAt0_begins.
  - intros [p Hp]. rewrite Hp, matches_laeh2_suffix in Hm. discriminate.
Qed.

(** C6, amended. The text of one boundary is: the message followed by
    the frame separator when the message is not empty; then, when the
    metadata is truthy, its [JSON.stringify] text with the configured
    indent if it is an object and its string form otherwise, followed
    by one space; then the frame entries joined by the frame separator.
    A separator that is not passed is [" < "] for frames and [" << "]
    for boundaries. For a non-empty message with object metadata or
    none, this is the text the specification describes. *)
Theorem single_boundary_text (e : Error) (s : list CallSite) :
  let fs := or_default (frameSeparator cfg) " < " in
  prepareStackTrace e None s =
    (if nonempty (message e) then message e +:+ fs else EmptyString)
    +:+ (if truthy (meta e)
         then (if typeof_object (meta e)
               then JSON_stringify (meta e) (prettyMeta cfg)
               else String_ host_string (meta e)) +:+ " "
         else EmptyString)
    +:+ String.concat fs (map (render_run " < ") (runs (survivors s)))
  /\ (forall p, prepareStackTrace e (Some p) s =
                prepareStackTrace e None s
                +:+ or_default (fiberSeparator cfg) " << " +:+ p)
  /\ or_default None " < " = " < "
  /\ or_default None " << " = " << "
  /\ (nonempty (message e) = true ->
      meta e = VUndefined \/
      (truthy (meta e) = true /\ typeof_object (meta e) = true) ->
      segment e = described_segment e).
Proof.
  cbn zeta. split; [| split; [| split; [| split]]].
  - unfold Lean.prepareStackTrace. rewrite entries_runs.
    destruct (nonempty (message e)), (truthy (meta e));
      rewrite ?append_nil, ?append_assoc; reflexivity.
  - intros p. reflexivity.
  - reflexivity.
  - reflexivity.
  - intros Hm Hmeta. unfold Lean.segment, Lean.described_segment,
      Lean.prepareStackTrace. rewrite Hm.
    destruct Hmeta as [Hu | [Ht Ho]].
    + rewrite Hu. cbn [truthy]. now rewrite ?append_nil, ?append_assoc.
    + rewrite Ht, Ho. destruct (meta e); try discriminate;
        now rewrite ?append_nil, ?append_assoc.
Qed.

End Renderer.

(** C5 fails as stated: with the frame separator set to a newline, two
    consecutive frames of one file are still joined by [" < "]. *)
Lemma line_indicators_ignore_frame_separator :
  let s := [Sample.site "/home/app/ex1.js" 7; Sample.site "/home/app/ex1.js" 13] in
  Lean.entries Sample.cwd Sample.for_express s = ["./ex1.js(7 < 13)"] /\
  map (render_run Sample.newline)
      (runs (Lean.survivors Sample.cwd Sample.for_express s))
  = ["./ex1.js(7" +:+ Sample.newline +:+ "13)"] /\
  Lean.entries Sample.cwd Sample.for_express s <>
  map (render_run Sample.newline)
      (runs (Lean.survivors Sample.cwd Sample.for_express s)).
Proof.
  cbn zeta. split; [vm_compute; reflexivity |].
  split; [vm_compute; reflexivity |]. vm_compute. discriminate.
Qed.

Lemma hiding_keeps_paths_sample :
  hiding Sample.defaults = true /\
  exists gs,
    Lean.entries Sample.cwd Sample.defaults Sample.origin_sites
    = map (render_run " < ") gs /\
    Forall (fun g =>
              In (fst g) (map (fun f => Lean.shorten Sample.cwd (getFileName f))
                              Sample.origin_sites) /\
              (Str.begins_with "." (fst g) \/ Str.begins_with "/" (fst g)) /\
              ~ Str.ends_with "laeh2.js" (fst g)) gs.
Proof.
  split; [reflexivity |].
  apply (hiding_keeps_paths Sample.cwd Sample.defaults Sample.origin_sites).
  reflexivity.
Defined.

Lemma single_boundary_text_sample :
  nonempty (message (mkError "boom" (VObj 1) None Sample.thrown_sites)) = true /\
  Lean.segment Sample.cwd Sample.json Sample.host_string Sample.defaults
    (mkError "boom" (VObj 1) None Sample.thrown_sites)
  = Lean.described_segment Sample.cwd Sample.json Sample.defaults
      (mkError "boom" (VObj 1) None Sample.thrown_sites).
Proof.
  split; [reflexivity |].
  refine (proj2 (proj2 (proj2 (proj2
    (single_boundary_text Sample.cwd Sample.json Sample.host_string
       Sample.defaults (mkError "boom" (VObj 1) None Sample.thrown_sites)
       Sample.thrown_sites)))) eq_refl _).
  right. split; reflexivity.
Defined.

(** C6 fails as stated: an error without a message, such as the origin
    error of a wrapper, renders without the leading frame separator. *)
Lemma empty_message_has_no_separator :
  Lean.segment Sample.cwd Sample.json Sample.host_string Sample.defaults
    Sample.origin = "./ex1.js(7 < 13)" /\
  Lean.described_segment Sample.cwd Sample.json Sample.defaults
    Sample.origin = " < ./ex1.js(7 < 13)" /\
  Lean.segment Sample.cwd Sample.json Sample.host_string Sample.defaults
    Sample.origin <>
  Lean.described_segment Sample.cwd Sample.json Sample.defaults Sample.origin.
Proof.
  split; [vm_compute; reflexivity |].
  split; [vm_compute; reflexivity |]. vm_compute. discriminate.
Qed.

End LeanSpec.

(** ** The normalizer and the wrapper *)

Module LaehFacts.
Import Laeh.

Lemma world_eta (σ : world) : mkWorld (errors σ) (calls σ) = σ.
Proof. now destruct σ. Qed.

Lemma with_prev_twice (p q : ref) (e : Error) :
  with_prev q (with_prev p e) = with_prev q e.
Proof. reflexivity. Qed.

Lemma alter_snoc {A} (f : A -> A) (l : list A) (x : A) :
  alter f (length l) (l ++ [x]) = l ++ [f x].
Proof.
  rewrite alter_app_r_alt by lia. now rewrite Nat.sub_diag.
Qed.

(** Linking twice keeps the second link only. *)
Lemma relink (p q r : ref) (h : heap) :
  alter (with_prev q) r (alter (with_prev p) r h) = alter (with_prev q) r h.
Proof.
  rewrite list_alter_alter_eq. apply list_alter_ext; [| reflexivity].
  intros e _. reflexivity.
Qed.

Section Library.

Variable reentry : fun_id -> list value -> heap -> value.
Variable host : fun_id -> list value -> heap -> completion value * heap.
Variable host_string : value -> string.
Variable capture : nat -> list CallSite.

Local Abbreviation Error_message := (Error_message host_string).
Local Abbreviation call := (call host capture).
Local Abbreviation _e := (_e host_string capture).
Local Abbreviation attempt := (attempt host host_string capture).
Local Abbreviation recover := (recover host host_string capture).
Local Abbreviation reentered := (reentered reentry).
Local Abbreviation invoke := (invoke reentry host host_string capture).
Local Abbreviation normalized := (normalized host_string capture).
Local Abbreviation linked := (linked host_string capture).

Lemma call_function (who : role) (line : nat) (c : fun_id)
    (args : list value) (σ : world) :
  call who line (VFun c) args σ =
  (fst (host c args (errors σ)),
   mkWorld (snd (host c args (errors σ)))
           (calls σ ++ [Call who (VFun c) args])).
Proof.
  unfold Laeh.call. cbn [errors calls].
  now destruct (host c args (errors σ)).
Qed.

(** A call adds at most its own event. *)
Lemma call_calls (who : role) (line : nat) (f : value) (args : list value)
    (σ : world) :
  exists evs,
    calls (snd (call who line f args σ)) = calls σ ++ evs /\
    Forall (fun ev => ev_role ev = who /\ ev_callee ev = f) evs.
Proof.
  destruct f; try (exists []; cbn; rewrite app_nil_r; split; [reflexivity | constructor]).
  rewrite call_function. cbn [snd calls]. eexists. split; [reflexivity |].
  repeat constructor.
Qed.

Lemma _e_falsy (e m : value) (σ : world) :
  truthy e = false -> _e e m σ = (Normal tt, σ).
Proof. intros H. unfold Laeh._e. now rewrite H. Qed.

Lemma _e_error (r : ref) (m : value) (σ : world) :
  _e (VErr r) m σ =
  (Throw (VErr r),
   mkWorld (if truthy m then alter (with_meta m) r (errors σ) else errors σ)
           (calls σ)).
Proof.
  unfold Laeh._e. cbn [truthy]. unfold bind, ret, throw, set_meta.
  destruct (truthy m); cbn; [reflexivity | now rewrite world_eta].
Qed.

Lemma _e_other (e m : value) (σ : world) :
  truthy e = true -> instanceof_Error e = false ->
  _e e m σ =
  (Throw (VErr (length (errors σ))),
   mkWorld (errors σ ++
              [mkError (String_ host_string e)
                 (if truthy m then m else VUndefined) None (capture 31)])
           (calls σ)).
Proof.
  intros Ht Hi. unfold Laeh._e. rewrite Ht.
  destruct e; try discriminate; unfold bind, ret, throw, set_meta, new_Error;
    destruct (truthy m); cbn [errors calls];
    rewrite ?alter_snoc; reflexivity.
Qed.

(** [_e] calls nothing. *)
Lemma _e_calls (e m : value) (σ : world) :
  calls (snd (_e e m σ)) = calls σ.
Proof.
  destruct (truthy e) eqn:Ht; [| now rewrite _e_falsy].
  destruct (instanceof_Error e) eqn:Hi.
  - destruct e; try discriminate. now rewrite _e_error.
  - now rewrite _e_other.
Qed.

Lemma attempt_check_error (w : wrapper) (a : list value) (r : ref)
    (σ : world) :
  truthy (w_chk w) = true -> first_arg a = VErr r ->
  attempt w a σ = (Throw (VErr r), σ).
Proof.
  intros Hc Ha. unfold Laeh.attempt, bind. rewrite Hc, Ha, _e_error.
  cbn [truthy]. now rewrite world_eta.
Qed.

Lemma attempt_check_other (w : wrapper) (a : list value) (σ : world) :
  truthy (w_chk w) = true ->
  truthy (first_arg a) = true -> instanceof_Error (first_arg a) = false ->
  attempt w a σ =
  (Throw (VErr (length (errors σ))),
   mkWorld (errors σ ++
              [mkError (String_ host_string (first_arg a)) VUndefined None
                 (capture 31)])
           (calls σ)).
Proof.
  intros Hc Ht Hi. unfold Laeh.attempt, bind.
  rewrite Hc, _e_other by assumption. reflexivity.
Qed.

Lemma attempt_pass (w : wrapper) (a : list value) (σ : world) :
  truthy (w_chk w) = false \/ truthy (first_arg a) = false ->
  attempt w a σ = call Logic 65 (w_func w) a σ.
Proof.
  intros H. unfold Laeh.attempt, bind.
  destruct (truthy (w_chk w)); [| reflexivity].
  destruct H as [H|H]; [discriminate |]. now rewrite _e_falsy.
Qed.

(** Before the catch block only the wrapped logic is called. *)
Lemma attempt_calls (w : wrapper) (a : list value) (σ : world) :
  exists logic,
    calls (snd (attempt w a σ)) = calls σ ++ logic /\
    Forall (fun ev => ev_role ev = Logic /\ ev_callee ev = w_func w) logic.
Proof.
  destruct (truthy (w_chk w)) eqn:Hc; [destruct (truthy (first_arg a)) eqn:Ht |].
  - exists []. rewrite app_nil_r. split; [| constructor].
    destruct (instanceof_Error (first_arg a)) eqn:Hi.
    + destruct (first_arg a) eqn:Ha; try discriminate.
      now rewrite (attempt_check_error w a r).
    + now rewrite attempt_check_other.
  - rewrite attempt_pass by now right. apply call_calls.
  - rewrite attempt_pass by now left. apply call_calls.
Qed.

Lemma linked_error (w : wrapper) (r : ref) (h : heap) :
  linked w (VErr r) h = (r, alter (with_prev (w_prev w)) r h).
Proof. reflexivity. Qed.

Lemma linked_other (w : wrapper) (v : value) (h : heap) :
  instanceof_Error v = false ->
  linked w v h =
  (length h,
   h ++ [mkError (Error_message v) VUndefined (Some (w_prev w)) (capture 69)]).
Proof.
  intros Hi. unfold Laeh.linked, Laeh.normalized.
  destruct v; try discriminate; now rewrite alter_snoc.
Qed.

(** Once linked, the error points to the origin error of the wrapper. *)
Lemma linked_prev (w : wrapper) (v : value) (h : heap) :
  (forall r0, v = VErr r0 -> r0 < length h) ->
  exists err,
    snd (linked w v h) !! fst (linked w v h) = Some err /\
    prev err = Some (w_prev w).
Proof.
  intros Hv. destruct (instanceof_Error v) eqn:Hi.
  - destruct v; try discriminate. rewrite linked_error. cbn [fst snd].
    destruct (lookup_lt_is_Some_2 h r (Hv r eq_refl)) as [err Herr].
    exists (with_prev (w_prev w) err). split; [| reflexivity].
    now rewrite list_lookup_alter_eq, Herr.
  - rewrite linked_other by assumption. cbn [fst snd].
    eexists. split.
    * rewrite lookup_app_r by lia. rewrite Nat.sub_diag. reflexivity.
    * reflexivity.
Qed.

Lemma recover_truthy (w : wrapper) (v : value) (σ : world) :
  truthy (w_cb w) = true ->
  recover w v σ =
  call Handler 77 (w_cb w) [VErr (fst (linked w v (errors σ)))]
    (mkWorld (snd (linked w v (errors σ))) (calls σ)).
Proof.
  intros Hcb. unfold Laeh.recover, Laeh.linked, Laeh.normalized.
  rewrite Hcb. cbn [negb].
  destruct v; reflexivity.
Qed.

Lemma recover_handler (w : wrapper) (v : value) (c : fun_id) (σ : world) :
  w_cb w = VFun c ->
  recover w v σ =
  (fst (host c [VErr (fst (linked w v (errors σ)))]
          (snd (linked w v (errors σ)))),
   mkWorld (snd (host c [VErr (fst (linked w v (errors σ)))]
                   (snd (linked w v (errors σ)))))
           (calls σ ++
              [Call Handler (VFun c) [VErr (fst (linked w v (errors σ)))]])).
Proof.
  intros Hcb. rewrite recover_truthy by now rewrite Hcb.
  rewrite Hcb. now rewrite call_function.
Qed.

Lemma recover_missing (w : wrapper) (v : value) (σ : world) :
  truthy (w_cb w) = false ->
  recover w v σ =
  (Throw (VErr (length (snd (linked w v (errors σ))))),
   mkWorld (snd (linked w v (errors σ)) ++
              [mkError "missing callback" VUndefined None (capture 75)])
           (calls σ)).
Proof.
  intros Hcb. unfold Laeh.recover, Laeh.linked, Laeh.normalized.
  rewrite Hcb. cbn [negb].
  destruct v; reflexivity.
Qed.

Lemma invoke_raised (w : wrapper) (a : list value) (v : value)
    (σ σ1 : world) :
  attempt (adopt w a) a σ = (Throw v, σ1) ->
  snd (invoke w a σ) =
  (returned (fst (recover (reentered (adopt w a) a σ) v σ1)),
   snd (recover (reentered (adopt w a) a σ) v σ1)).
Proof.
  intros H. unfold Laeh.invoke. cbn [snd]. unfold bind, try_catch.
  rewrite H.
  now destruct (recover (reentered (adopt w a) a σ) v σ1) as [[x|x] σ2].
Qed.

Lemma invoke_passed (w : wrapper) (a : list value) (x : value)
    (σ σ1 : world) :
  attempt (adopt w a) a σ = (Normal x, σ1) ->
  snd (invoke w a σ) = (Normal tt, σ1).
Proof.
  intros H. unfold Laeh.invoke. cbn [snd]. unfold bind, try_catch.
  now rewrite H.
Qed.

Lemma adopt_set (w : wrapper) (a : list value) :
  truthy (w_cb w) = true -> adopt w a = w.
Proof. intros H. unfold adopt. now rewrite H. Qed.

Lemma adopt_last (w : wrapper) (a : list value) (f : fun_id) :
  truthy (w_cb w) = false -> last a = Some (VFun f) ->
  adopt w a = mkWrapper (VFun f) (w_chk w) (w_func w) (w_prev w).
Proof. intros H Hl. unfold adopt. now rewrite H, Hl. Qed.

Lemma adopt_none (w : wrapper) (a : list value) :
  truthy (w_cb w) = false ->
  match last a with Some v => is_function v = false | None => True end ->
  adopt w a = mkWrapper VNull (w_chk w) (w_func w) (w_prev w).
Proof.
  intros H Hl. unfold adopt. rewrite H. cbn [negb].
  destruct (last a) as [v|]; [now rewrite Hl | reflexivity].
Qed.

Lemma adopt_fixed (w : wrapper) (a : list value) :
  w_chk (adopt w a) = w_chk w /\ w_func (adopt w a) = w_func w /\
  w_prev (adopt w a) = w_prev w.
Proof. unfold adopt. now destruct (negb (truthy (w_cb w))). Qed.

(** A call made again cannot replace a handler. *)
Lemma reentered_set (w : wrapper) (a : list value) (σ : world) :
  truthy (w_cb w) = true -> reentered w a σ = w.
Proof.
  intros H. unfold Laeh.reentered.
  destruct (truthy (w_chk w) && truthy (first_arg a))%bool; [reflexivity |].
  destruct (w_func w) eqn:E; try reflexivity.
  now apply adopt_set.
Qed.

Lemma reentered_fixed (w : wrapper) (a : list value) (σ : world) :
  w_chk (reentered w a σ) = w_chk w /\ w_func (reentered w a σ) = w_func w /\
  w_prev (reentered w a σ) = w_prev w.
Proof.
  unfold Laeh.reentered.
  destruct (truthy (w_chk w) && truthy (first_arg a))%bool; [now repeat split |].
  destruct (w_func w) eqn:E; rewrite <- ?E; try now repeat split.
  apply adopt_fixed.
Qed.


(** [cb] is set by a call the logic makes with a function as last
    argument. *)
Lemma reentered_adopts (w : wrapper) (a : list value) (σ : world)
    (f g : fun_id) :
  truthy (w_cb w) = false ->
  (truthy (w_chk w) && truthy (first_arg a))%bool = false ->
  w_func w = VFun f -> reentry f a (errors σ) = VFun g ->
  reentered w a σ = mkWrapper (VFun g) (w_chk w) (w_func w) (w_prev w).
Proof.
  intros Hcb Hc Hf Hg. unfold Laeh.reentered. rewrite Hc, Hf, Hg.
  unfold adopt. rewrite Hcb. cbn [negb last is_function]. now rewrite Hf.
Qed.


Lemma linked_adopt (w : wrapper) (a : list value) (v : value) (h : heap) :
  linked (adopt w a) v h = linked w v h.
Proof.
  unfold Laeh.linked. now destruct (adopt_fixed w a) as (_ & _ & ->).
Qed.

(** The catch block calls nothing but the handler. *)
Lemma recover_calls (w : wrapper) (v : value) (σ : world) :
  exists evs,
    calls (snd (recover w v σ)) = calls σ ++ evs /\
    Forall (fun ev => ev_role ev = Handler /\ ev_callee ev = w_cb w) evs.
Proof.
  destruct (truthy (w_cb w)) eqn:Hcb.
  - rewrite recover_truthy by assumption.
    apply (call_calls Handler 77 (w_cb w) _
             (mkWorld (snd (linked w v (errors σ))) (calls σ))).
  - rewrite recover_missing by assumption. exists []. cbn [snd calls].
    rewrite app_nil_r. split; [reflexivity | constructor].
Qed.

(** One call of a wrapper: the handler it calls, if any, is the one it
    has settled on. *)
Lemma invoke_calls (w : wrapper) (a : list value) (σ : world) :
  exists evs,
    calls (snd (snd (invoke w a σ))) = calls σ ++ evs /\
    Forall (fun ev => ev_role ev = Handler ->
                      ev_callee ev = w_cb (reentered (adopt w a) a σ)) evs.
Proof.
  destruct (attempt_calls (adopt w a) a σ) as (logic & Hl & Hlogic).
  destruct (attempt (adopt w a) a σ) as [[x|v] σ1] eqn:E; cbn [snd] in Hl.
  - rewrite (invoke_passed w a x σ σ1 E). cbn [snd]. exists logic.
    split; [exact Hl |]. eapply Forall_impl; [exact Hlogic |].
    intros ev [Hr _] Hh. congruence.
  - rewrite (invoke_raised w a v σ σ1 E). cbn [snd].
    destruct (recover_calls (reentered (adopt w a) a σ) v σ1)
      as (evs & He & Hevs).
    exists (logic ++ evs). rewrite He, Hl, app_assoc. split; [reflexivity |].
    apply Forall_app. split.
    + eapply Forall_impl; [exact Hlogic |]. intros ev [Hr _] Hh. congruence.
    + eapply Forall_impl; [exact Hevs |]. now intros ev [_ Hc] _.
Qed.

(** With a handler settled before the logic runs, what the logic raises
    is handed to that handler. *)
Lemma invoke_delivers (w : wrapper) (a : list value) (σ σ1 : world)
    (c : fun_id) (v : value) :
  w_cb (adopt w a) = VFun c ->
  attempt (adopt w a) a σ = (Throw v, σ1) ->
  snd (invoke w a σ) =
  (returned (fst (host c [VErr (fst (linked w v (errors σ1)))]
                    (snd (linked w v (errors σ1))))),
   mkWorld (snd (host c [VErr (fst (linked w v (errors σ1)))]
                   (snd (linked w v (errors σ1)))))
           (calls σ1 ++
              [Call Handler (VFun c) [VErr (fst (linked w v (errors σ1)))]])).
Proof.
  intros Hcb Hatt.
  rewrite (invoke_raised w a v σ σ1 Hatt).
  rewrite reentered_set by now rewrite Hcb.
  rewrite (recover_handler _ v c σ1 Hcb).
  cbn [fst snd]. rewrite !linked_adopt. reflexivity.
Qed.

Lemma _x_normal (cb chk func : value) (σ σ' : world) (w : wrapper) :
  Laeh._x capture cb chk func σ = (Normal w, σ') ->
  w = mkWrapper cb chk func (length (errors σ)) /\
  σ' = mkWorld (errors σ ++ [mkError EmptyString VUndefined None (capture 52)])
               (calls σ) /\
  (truthy cb = false \/ is_function cb = true) /\
  is_function func = true.
Proof.
  unfold Laeh._x.
  destruct (truthy cb && negb (is_function cb))%bool eqn:Hcb;
    [discriminate |].
  destruct (is_function func) eqn:Hf; [| discriminate]. cbn [negb].
  unfold bind, new_Error, ret. intros H. injection H as <- <-.
  repeat split.
  apply andb_false_iff in Hcb. destruct Hcb as [H|H]; [now left | right].
  now apply negb_false_iff.
Qed.

Lemma invoke_fst (w : wrapper) (a : list value) (σ : world) :
  fst (invoke w a σ) = reentered (adopt w a) a σ.
Proof. reflexivity. Qed.

(** A wrapper that has a handler keeps it, call after call. *)
Lemma invoke_all_keeps (f : value) (todo : list ((heap -> heap) * list value)) :
  forall (w : wrapper) (σ : world),
    truthy f = true -> w_cb w = f ->
    w_cb (fst (Laeh.invoke_all reentry host host_string capture w todo σ)) = f /\
    exists evs,
      calls (snd (Laeh.invoke_all reentry host host_string capture w todo σ))
      = calls σ ++ evs /\
      Forall (fun ev => ev_role ev = Handler -> ev_callee ev = f) evs.
Proof.
  induction todo as [|[between a] todo IH]; intros w σ Hf Hcb.
  - cbn [Laeh.invoke_all fst snd]. split; [exact Hcb |].
    exists []. rewrite app_nil_r. split; [reflexivity | constructor].
  - cbn [Laeh.invoke_all].
    set (σ0 := mkWorld (between (errors σ)) (calls σ)).
    destruct (invoke_calls w a σ0) as (evs & He & Hevs).
    pose proof (invoke_fst w a σ0) as Hw.
    destruct (invoke w a σ0) as [w' [cpl σ']] eqn:E.
    cbn [fst snd] in *. subst w'.
    assert (Had : adopt w a = w) by (apply adopt_set; now rewrite Hcb).
    rewrite Had in *.
    assert (Hre : reentered w a σ0 = w)
      by (apply reentered_set; now rewrite Hcb).
    rewrite Hre in *.
    destruct (IH w σ' Hf Hcb) as (Hk & evs' & He' & Hevs').
    split; [exact Hk |].
    exists (evs ++ evs'). rewrite He', He. cbn [calls].
    rewrite app_assoc. split; [reflexivity |].
    apply Forall_app. split; [| exact Hevs'].
    eapply Forall_impl; [exact Hevs |]. intros ev H Hr. rewrite H by exact Hr.
    exact Hcb.
Qed.

End Library.

Lemma undefined_on_return_twice {A} (c : completion A) :
  undefined_on_return (undefined_on_return c) = undefined_on_return c.
Proof. now destruct c. Qed.

Lemma undefined_on_returned {A} (c : completion A) :
  undefined_on_return (returned c) = undefined_on_return c.
Proof. now destruct c. Qed.

Lemma nest_hit (reentry : fun_id -> list value -> heap -> value)
    (host : fun_id -> list value -> heap -> completion value * heap)
    (host_string : value -> string) (capture : nat -> list CallSite)
    (id : fun_id) (w : wrapper) (rest : list (fun_id * wrapper))
    (a : list value) (h : heap) :
  nest reentry host host_string capture ((id, w) :: rest) id a h =
  (undefined_on_return
     (fst (snd (invoke reentry (nest reentry host host_string capture rest)
                  host_string capture w a (mkWorld h [])))),
   errors (snd (snd (invoke reentry
                       (nest reentry host host_string capture rest)
                       host_string capture w a (mkWorld h []))))).
Proof.
  cbn [nest]. rewrite Nat.eqb_refl.
  now destruct (snd (invoke reentry _ host_string capture w a (mkWorld h []))).
Qed.

(** One wrapper with a handler, called with an error it checks: the error
    is linked and handed to the handler. *)
Lemma crossing (reentry : fun_id -> list value -> heap -> value)
    (host : fun_id -> list value -> heap -> completion value * heap)
    (host_string : value -> string) (capture : nat -> list CallSite)
    (w : wrapper) (c : fun_id) (r : ref) (h : heap) :
  truthy (w_chk w) = true -> w_cb w = VFun c ->
  snd (invoke reentry host host_string capture w [VErr r] (mkWorld h [])) =
  (returned (fst (host c [VErr r] (alter (with_prev (w_prev w)) r h))),
   mkWorld (snd (host c [VErr r] (alter (with_prev (w_prev w)) r h)))
           [Call Handler (VFun c) [VErr r]]).
Proof.
  intros Hchk Hcb.
  assert (Hset : truthy (w_cb w) = true) by now rewrite Hcb.
  assert (Hatt : attempt host host_string capture
                   (adopt w [VErr r]) [VErr r] (mkWorld h [])
                 = (Throw (VErr r), mkWorld h [])).
  { rewrite adopt_set by assumption. now apply attempt_check_error. }
  rewrite (invoke_raised reentry host host_string capture w _ _ _ _ Hatt).
  rewrite adopt_set, reentered_set by assumption.
  rewrite (recover_handler host host_string capture w _ c _ Hcb).
  reflexivity.
Qed.

(** An error that crosses wrappers which hand it on to the next reaches
    the last handler linked to the origin error of the last wrapper
    only. *)
Lemma crossings (reentry : fun_id -> list value -> heap -> value)
    (host : fun_id -> list value -> heap -> completion value * heap)
    (host_string : value -> string) (capture : nat -> list CallSite)
    (c : fun_id) (rest : list (fun_id * wrapper)) :
  forall (id : fun_id) (w : wrapper) (r : ref) (h : heap),
    relay c ((id, w) :: rest) ->
    nest reentry host host_string capture ((id, w) :: rest) id [VErr r] h =
    (undefined_on_return
       (fst (host c [VErr r]
               (alter (with_prev (last_origin rest (w_prev w))) r h))),
     snd (host c [VErr r]
            (alter (with_prev (last_origin rest (w_prev w))) r h))).
Proof.
  induction rest as [|[id' w'] rest IH]; intros id w r h (Hchk & Hcb & Hrest).
  - rewrite nest_hit. cbn [nest].
    rewrite (crossing reentry host host_string capture w c r h Hchk Hcb).
    cbn [fst snd errors]. now rewrite undefined_on_returned.
  - rewrite nest_hit.
    set (inner := nest reentry host host_string capture ((id', w') :: rest)) in *.
    rewrite (crossing reentry inner host_string capture w id' r h Hchk Hcb).
    cbn [fst snd errors]. rewrite undefined_on_returned. subst inner.
    rewrite (IH id' w' r _ Hrest). cbn [fst snd].
    rewrite undefined_on_return_twice, relink.
    replace (last_origin ((id', w') :: rest) (w_prev w))
      with (last_origin rest (w_prev w')); [reflexivity |].
    unfold last_origin. rewrite last_cons. now destruct (last rest).
Qed.

End LaehFacts.

(** ** The normalizer and the wrapper, specified *)

Module LaehSpec.
Import Laeh LaehFacts.

Section Library.

Variable reentry : fun_id -> list value -> heap -> value.
Variable host : fun_id -> list value -> heap -> completion value * heap.
Variable host_string : value -> string.
Variable capture : nat -> list CallSite.

Local Abbreviation Error_message := (Error_message host_string).
Local Abbreviation call := (call host capture).
Local Abbreviation _e := (_e host_string capture).
Local Abbreviation attempt := (attempt host host_string capture).
Local Abbreviation recover := (recover host host_string capture).
Local Abbreviation reentered := (reentered reentry).
Local Abbreviation invoke := (invoke reentry host host_string capture).
Local Abbreviation invoke_all := (invoke_all reentry host host_string capture).
Local Abbreviation linked := (linked host_string capture).

(** C4, amended. [_e] returns and changes nothing for a falsy first
    argument. For any other it throws an [Error]: the argument itself
    when it is one, else a new one whose message is the string form of
    the argument. The metadata is attached, replacing what was there,
    when it is truthy; metadata that is falsy is not attached. *)
Theorem check_or_raise (e m : value) (σ : world) :
  (truthy e = false -> _e e m σ = (Normal tt, σ)) /\
  (forall r, e = VErr r ->
     _e e m σ =
     (Throw (VErr r),
      mkWorld (if truthy m then alter (with_meta m) r (errors σ)
               else errors σ) (calls σ)) /\
     (forall err, errors σ !! r = Some err -> truthy m = true ->
        errors (snd (_e e m σ)) !! r =
        Some (mkError (message err) m (prev err) (callSites err)))) /\
  (truthy e = true -> instanceof_Error e = false ->
     _e e m σ =
     (Throw (VErr (length (errors σ))),
      mkWorld (errors σ ++
                 [mkError (String_ host_string e)
                    (if truthy m then m else VUndefined) None (capture 31)])
              (calls σ))).
Proof.
  split; [apply _e_falsy |]. split; [| apply _e_other].
  intros r ->. split; [apply _e_error |].
  intros err Herr Hm. rewrite _e_error, Hm. cbn [snd errors].
  now rewrite list_lookup_alter_eq, Herr.
Qed.

(** C1. A wrapper is built with a new origin error holding the call
    sites of line 52. When the check or the wrapped logic raises [v]
    and a handler [c] is settled, the raised value becomes an [Error]
    (itself, or a new one with the string form of [v] as message), the
    error is linked to the origin error, and the handler is called
    once, with that error alone, after the wrapped logic at most; the
    call of the wrapper completes as the handler does, so it returns
    when the handler returns. *)
Theorem failures_are_delivered :
  (forall cb chk func σ0 σ0' w0,
     Laeh._x capture cb chk func σ0 = (Normal w0, σ0') ->
     w_prev w0 = length (errors σ0) /\
     errors σ0' !! w_prev w0 =
     Some (mkError EmptyString VUndefined None (capture 52))) /\
  (forall w a σ σ1 c v,
     w_cb (adopt w a) = VFun c ->
     attempt (adopt w a) a σ = (Throw v, σ1) ->
     (forall r0, v = VErr r0 -> r0 < length (errors σ1)) ->
     let r := fst (linked w v (errors σ1)) in
     let h := snd (linked w v (errors σ1)) in
     match v with
     | VErr r0 => r = r0
     | _ => r = length (errors σ1) /\
            h !! r = Some (mkError (Error_message v) VUndefined
                             (Some (w_prev w)) (capture 69))
     end /\
     (exists err, h !! r = Some err /\ prev err = Some (w_prev w)) /\
     snd (invoke w a σ) =
     (returned (fst (host c [VErr r] h)),
      mkWorld (snd (host c [VErr r] h))
              (calls σ1 ++ [Call Handler (VFun c) [VErr r]])) /\
     (exists logic,
        calls σ1 = calls σ ++ logic /\
        Forall (fun ev => ev_role ev = Logic) logic) /\
     (forall x, fst (host c [VErr r] h) = Normal x ->
                fst (snd (invoke w a σ)) = Normal tt)).
Proof.
  split.
  - intros cb chk func σ0 σ0' w0 H.
    apply _x_normal in H. destruct H as (-> & -> & _). cbn [w_prev errors].
    split; [reflexivity |].
    rewrite lookup_app_r by lia. now rewrite Nat.sub_diag.
  - intros w a σ σ1 c v Hcb Hatt Hv r h.
    assert (Hinv : snd (invoke w a σ) =
                   (returned (fst (host c [VErr r] h)),
                    mkWorld (snd (host c [VErr r] h))
                      (calls σ1 ++ [Call Handler (VFun c) [VErr r]]))).
    { exact (invoke_delivers reentry host host_string capture
               w a σ σ1 c v Hcb Hatt). }
    split; [| split; [| split; [| split]]].
    + subst r h. destruct (instanceof_Error v) eqn:Hi.
      * destruct v; try discriminate. reflexivity.
      * rewrite linked_other by assumption. cbn [fst snd].
        assert (Hl : (errors σ1 ++
                        [mkError (Error_message v) VUndefined
                           (Some (w_prev w)) (capture 69)])
                     !! length (errors σ1)
                     = Some (mkError (Error_message v) VUndefined
                               (Some (w_prev w)) (capture 69))).
        { rewrite lookup_app_r by lia. now rewrite Nat.sub_diag. }
        destruct v; try discriminate; (split; [reflexivity | exact Hl]).
    + apply linked_prev. exact Hv.
    + exact Hinv.
    + destruct (attempt_calls host host_string capture (adopt w a) a σ)
        as (logic & Hl & Hlogic).
      rewrite Hatt in Hl. exists logic. split; [exact Hl |].
      eapply Forall_impl; [exact Hlogic |]. now intros ev [Hr _].
    + intros x Hx. rewrite Hinv. cbn [fst]. now rewrite Hx.
Qed.

(** C2. A wrapper that checks its first argument, called with a truthy
    first argument while a handler [c] is settled, calls the handler and
    nothing else, so the wrapped logic does not run; the handler receives
    the first argument itself when it is an [Error], else a new [Error]
    with its string form as message, linked to the origin error. Called
    with a falsy first argument, the wrapper calls the wrapped logic first,
    with all the arguments and on the store as it was; it returns if the
    logic returns, and runs the catch block on what the logic raises. *)
Theorem error_first_check (w : wrapper) (a : list value) (σ : world) :
  truthy (w_chk w) = true ->
  (forall c,
     w_cb (adopt w a) = VFun c ->
     truthy (first_arg a) = true ->
     let r := match first_arg a with
              | VErr r0 => r0
              | _ => length (errors σ)
              end in
     let h := match first_arg a with
              | VErr r0 => alter (with_prev (w_prev w)) r0 (errors σ)
              | v => errors σ ++
                       [mkError (String_ host_string v) VUndefined
                          (Some (w_prev w)) (capture 31)]
              end in
     snd (invoke w a σ) =
     (returned (fst (host c [VErr r] h)),
      mkWorld (snd (host c [VErr r] h))
              (calls σ ++ [Call Handler (VFun c) [VErr r]])) /\
     ((forall r0, first_arg a = VErr r0 -> r0 < length (errors σ)) ->
      exists err, h !! r = Some err /\ prev err = Some (w_prev w))) /\
  (truthy (first_arg a) = false ->
   forall f,
     w_func w = VFun f ->
     let σL := mkWorld (snd (host f a (errors σ)))
                       (calls σ ++ [Call Logic (VFun f) a]) in
     snd (invoke w a σ) =
     match fst (host f a (errors σ)) with
     | Normal _ => (Normal tt, σL)
     | Throw v =>
         (returned (fst (recover (reentered (adopt w a) a σ) v σL)),
          snd (recover (reentered (adopt w a) a σ) v σL))
     end /\
     exists rest,
       calls (snd (snd (invoke w a σ))) =
       calls σ ++ Call Logic (VFun f) a :: rest /\
       Forall (fun ev => ev_role ev = Handler) rest).
Proof.
  intros Hchk.
  destruct (adopt_fixed w a) as (Hc & Hf & Hp).
  split.
  - intros c Hcb Ht r h.
    destruct (instanceof_Error (first_arg a)) eqn:Hi.
    + destruct (first_arg a) as [| | | | | | | |r0] eqn:Ha; try discriminate.
      assert (Hatt : attempt (adopt w a) a σ = (Throw (VErr r0), σ)).
      { apply attempt_check_error; [now rewrite Hc | exact Ha]. }
      subst r h. split.
      * exact (invoke_delivers reentry host host_string capture
                 w a σ σ c (VErr r0) Hcb Hatt).
      * intros Hv.
        destruct (lookup_lt_is_Some_2 (errors σ) r0 (Hv r0 eq_refl)) as [e0 He0].
        exists (with_prev (w_prev w) e0).
        split; [now rewrite list_lookup_alter_eq, He0 | reflexivity].
    + pose proof (attempt_check_other host host_string capture
                    (adopt w a) a σ) as Hatt.
      rewrite Hc in Hatt. specialize (Hatt Hchk Ht Hi).
      pose proof (invoke_delivers reentry host host_string capture
                    w a σ _ c _ Hcb Hatt) as Hinv.
      rewrite linked_error in Hinv. cbn [fst snd errors calls] in Hinv.
      rewrite alter_snoc in Hinv.
      assert (Hrh : r = length (errors σ) /\
                    h = errors σ ++
                          [mkError (String_ host_string (first_arg a))
                             VUndefined (Some (w_prev w)) (capture 31)]).
      { subst r h. destruct (first_arg a); try discriminate Hi;
          split; reflexivity. }
      destruct Hrh as [-> ->]. split; [exact Hinv |].
      intros _. eexists. split.
      * rewrite lookup_app_r by lia. rewrite Nat.sub_diag. reflexivity.
      * reflexivity.
  - intros Ht f Hfun σL.
    assert (Hatt : attempt (adopt w a) a σ = (fst (host f a (errors σ)), σL)).
    { rewrite attempt_pass by now right. rewrite Hf, Hfun.
      apply call_function. }
    destruct (fst (host f a (errors σ))) as [x|v] eqn:Hx.
    + rewrite (invoke_passed reentry host host_string capture w a x σ σL Hatt).
      split; [reflexivity |]. exists []. split; [reflexivity | constructor].
    + rewrite (invoke_raised reentry host host_string capture w a v σ σL Hatt).
      split; [reflexivity |]. cbn [snd].
      destruct (recover_calls host host_string capture
                  (reentered (adopt w a) a σ) v σL) as (evs & He & Hevs).
      exists evs. rewrite He. subst σL. cbn [calls].
      rewrite <- app_assoc. split; [reflexivity |].
      eapply Forall_impl; [exact Hevs |]. now intros ev [Hr _].
Qed.


(** C10. A wrapper made without a handler that is called with a
    function [f] as last argument stores [f] in its closure. In every
    later call the closure still holds [f], every handler call goes to
    [f], and a failure is handed to [f] whatever the last argument of
    that call is. *)
Theorem adopted_handler_is_kept (w : wrapper) (a1 : list value)
    (σ : world) (f : fun_id) :
  truthy (w_cb w) = false -> last a1 = Some (VFun f) ->
  let w1 := fst (invoke w a1 σ) in
  w_cb w1 = VFun f /\
  forall todo σ',
    let wk := fst (invoke_all w1 todo σ') in
    w_cb wk = VFun f /\
    (exists evs,
       calls (snd (invoke_all w1 todo σ')) = calls σ' ++ evs /\
       Forall (fun ev => ev_role ev = Handler -> ev_callee ev = VFun f) evs) /\
    forall a2 σ2 σ3 v,
      attempt (adopt wk a2) a2 σ2 = (Throw v, σ3) ->
      fst (invoke wk a2 σ2) = wk /\
      exists r,
        calls (snd (snd (invoke wk a2 σ2))) =
        calls σ3 ++ [Call Handler (VFun f) [VErr r]].
Proof.
  intros Hcb Hlast w1.
  assert (H1 : w_cb w1 = VFun f).
  { subst w1. rewrite invoke_fst, (adopt_last w a1 f Hcb Hlast).
    now rewrite reentered_set. }
  split; [exact H1 |]. intros todo σ' wk.
  destruct (invoke_all_keeps reentry host host_string capture (VFun f) todo
              w1 σ' eq_refl H1) as (Hk & Hevs).
  split; [exact Hk |]. split; [exact Hevs |].
  intros a2 σ2 σ3 v Hatt.
  assert (Had : adopt wk a2 = wk).
  { apply adopt_set. fold wk in Hk. now rewrite Hk. }
  split.
  { rewrite invoke_fst, Had. apply reentered_set. fold wk in Hk.
    now rewrite Hk. }
  assert (Hcb2 : w_cb (adopt wk a2) = VFun f) by now rewrite Had.
  rewrite (invoke_delivers reentry host host_string capture
             wk a2 σ2 σ3 f v Hcb2 Hatt).
  cbn [snd calls]. eexists. reflexivity.
Qed.

End Library.

(** C4 fails as stated: metadata that is passed but falsy, here [0], is
    not attached, and does not replace the metadata already there. *)
Lemma falsy_metadata_is_dropped :
  (exists σ',
     _e Sample.host_string Sample.capture (VStr "boom") (VNum 0) Sample.empty
     = (Throw (VErr 0), σ') /\
     meta <$> errors σ' !! 0 = Some VUndefined) /\
  (exists σ',
     _e Sample.host_string Sample.capture (VErr 1) (VNum 0)
       (mkWorld Sample.store [])
     = (Throw (VErr 1), σ') /\
     meta <$> errors σ' !! 1 = Some (VObj 1)).
Proof. split; eexists; split; reflexivity. Qed.


(** The closure keeps the first handler it took from the arguments: the
    second call ends with the function 13, and its failure still goes to
    the function 10. *)
Example adopted_handler_example :
  let '(w1, (_, σ1)) :=
    invoke Sample.no_reentry Sample.host Sample.host_string Sample.capture
      Sample.without_handler [VNull; VFun 10] Sample.empty in
  let '(w2, (_, σ2)) :=
    invoke Sample.no_reentry Sample.host Sample.host_string Sample.capture
      w1 [VNull; VFun 13] σ1 in
  w_cb w2 = VFun 10 /\
  List.filter (fun ev => match ev_role ev with Handler => true | Logic => false end)
    (calls σ2)
  = [Call Handler (VFun 10) [VErr 0]; Call Handler (VFun 10) [VErr 1]].
Proof. split; reflexivity. Qed.

Lemma check_or_raise_sample :
  truthy VNull = false /\
  _e Sample.host_string Sample.capture VNull (VObj 1) Sample.empty
  = (Normal tt, Sample.empty).
Proof.
  split; [reflexivity |].
  exact (proj1 (check_or_raise Sample.host_string Sample.capture
                  VNull (VObj 1) Sample.empty) eq_refl).
Defined.

(** The world once function 11 was called with [null] and some data. *)
Lemma failures_are_delivered_sample :
  let a := [VNull; VStr "data"] in
  let σ1 := mkWorld [] [Call Logic (VFun 11) a] in
  attempt Sample.host Sample.host_string Sample.capture
    (adopt Sample.with_handler a) a Sample.empty
  = (Throw (VStr "x"), σ1) /\
  snd (invoke Sample.no_reentry Sample.host Sample.host_string Sample.capture
         Sample.with_handler a Sample.empty)
  = (Normal tt,
     mkWorld [mkError "x" VUndefined (Some 0) (Sample.capture 69)]
             [Call Logic (VFun 11) a; Call Handler (VFun 10) [VErr 0]]).
Proof.
  intros a σ1. split; [reflexivity |].
  refine (proj1 (proj2 (proj2
    (proj2 (failures_are_delivered Sample.no_reentry Sample.host Sample.host_string
              Sample.capture)
       Sample.with_handler a Sample.empty σ1 10 (VStr "x")
       eq_refl eq_refl _)))).
  intros r0 H. discriminate H.
Defined.

Lemma error_first_check_sample :
  let a := [VStr "failed"; VStr "data"] in
  truthy (w_chk Sample.with_handler) = true /\
  truthy (first_arg a) = true /\
  snd (invoke Sample.no_reentry Sample.host Sample.host_string Sample.capture
         Sample.with_handler a Sample.empty) =
  (Normal tt,
   mkWorld [mkError "failed" VUndefined (Some 0) (Sample.capture 31)]
           [Call Handler (VFun 10) [VErr 0]]).
Proof.
  intros a. split; [reflexivity |]. split; [reflexivity |].
  exact (proj1 (proj1 (error_first_check Sample.no_reentry Sample.host
                         Sample.host_string Sample.capture
                         Sample.with_handler a Sample.empty eq_refl)
                  10 eq_refl eq_refl)).
Defined.


Lemma adopted_handler_is_kept_sample :
  let a1 := [VNull; VFun 10] in
  truthy (w_cb Sample.without_handler) = false /\
  last a1 = Some (VFun 10) /\
  w_cb (fst (invoke Sample.no_reentry Sample.host Sample.host_string Sample.capture
               Sample.without_handler a1 Sample.empty)) = VFun 10.
Proof.
  intros a1. split; [reflexivity |]. split; [reflexivity |].
  exact (proj1 (adopted_handler_is_kept Sample.no_reentry Sample.host Sample.host_string
                  Sample.capture Sample.without_handler a1 Sample.empty 10
                  eq_refl eq_refl)).
Defined.

End LaehSpec.

(** ** Errors that cross several wrappers *)

Module ChainSpec.
Import Lean Laeh LeanFacts LaehFacts.

Section Crossing.

Variable reentry : fun_id -> list value -> heap -> value.
Variable host : fun_id -> list value -> heap -> completion value * heap.
Variable host_string : value -> string.
Variable capture : nat -> list CallSite.
Variable cwd : string.
Variable JSON_stringify : value -> value -> string.
Variable cfg : config.

Local Abbreviation attempt := (attempt host host_string capture).
Local Abbreviation invoke := (invoke reentry host host_string capture).
Local Abbreviation nest := (nest reentry host host_string capture).
Local Abbreviation prepareStackTrace :=
  (prepareStackTrace cwd JSON_stringify host_string cfg).
Local Abbreviation segment := (segment cwd JSON_stringify host_string cfg).
Local Abbreviation boundary := (or_default (fiberSeparator cfg) " << ").

(** C9, amended. Every time an [Error] is raised inside a wrapper with a
    handler, the wrapper sets its [prev] to the origin error of that
    wrapper, whatever [prev] was before; the message, the metadata and
    the call sites of the error stay, the other errors stay, and the
    wrapper writes nothing after it has called the handler. When the
    error crosses several wrappers in turn, the last handler finds it
    linked to the origin error of the last wrapper crossed: the earlier
    links are overwritten. *)
Theorem crossing_overwrites_link :
  (forall w a σ σ1 c r e,
     w_cb (adopt w a) = VFun c ->
     attempt (adopt w a) a σ = (Throw (VErr r), σ1) ->
     errors σ1 !! r = Some e ->
     let h := alter (with_prev (w_prev w)) r (errors σ1) in
     h !! r = Some (mkError (message e) (meta e) (Some (w_prev w))
                      (callSites e)) /\
     (forall r', r' <> r -> h !! r' = errors σ1 !! r') /\
     snd (invoke w a σ) =
     (returned (fst (host c [VErr r] h)),
      mkWorld (snd (host c [VErr r] h))
              (calls σ1 ++ [Call Handler (VFun c) [VErr r]]))) /\
  (forall c id w rest r h,
     relay c ((id, w) :: rest) ->
     nest ((id, w) :: rest) id [VErr r] h =
     (undefined_on_return
        (fst (host c [VErr r]
                (alter (with_prev (last_origin rest (w_prev w))) r h))),
      snd (host c [VErr r]
             (alter (with_prev (last_origin rest (w_prev w))) r h)))).
Proof.
  split.
  - intros w a σ σ1 c r e Hcb Hatt He h. subst h.
    split; [now rewrite list_lookup_alter_eq, He |].
    split; [intros r' Hr'; now apply list_lookup_alter_ne |].
    exact (invoke_delivers reentry host host_string capture
             w a σ σ1 c (VErr r) Hcb Hatt).
  - intros c id w rest r h Hrelay. now apply crossings.
Qed.


End Crossing.

(** C9 fails as stated: the link set when the error is handed to the
    first handler is replaced when the same error crosses a second
    wrapper. *)
Lemma first_link_is_overwritten :
  prev <$>
    errors (snd (snd (Laeh.invoke Sample.no_reentry Sample.host Sample.host_string
                        Sample.capture Sample.wrapper_a
                        [VErr 3] (mkWorld Sample.trio_store [])))) !! 3
  = Some (Some 0) /\
  prev <$>
    snd (Laeh.nest Sample.no_reentry Sample.host Sample.host_string Sample.capture
           Sample.duo 1 [VErr 3] Sample.trio_store) !! 3
  = Some (Some 1).
Proof. split; reflexivity. Qed.


Lemma crossing_overwrites_link_sample :
  relay 10 Sample.trio /\
  Laeh.nest Sample.no_reentry Sample.host Sample.host_string Sample.capture Sample.trio 1
    [VErr 3] Sample.trio_store
  = (Normal VUndefined,
     alter (with_prev 2) 3 Sample.trio_store).
Proof.
  split; [repeat split |].
  exact (proj2 (crossing_overwrites_link Sample.no_reentry Sample.host Sample.host_string
                  Sample.capture)
           10 1 Sample.wrapper_a [(2, Sample.wrapper_b); (3, Sample.wrapper_c)]
           3 Sample.trio_store
           (conj eq_refl (conj eq_refl (conj eq_refl (conj eq_refl
              (conj eq_refl (conj eq_refl I))))))).
Defined.


(** The README's first example: the wrapper is made on line 7 of
    [ex1.js], called from line 13; its logic throws a new error on
    line 9. Whatever text the engine returns for the [stack] of the
    origin error, the text of the error that reaches the handler is its
    own segment, [ << ] and that text; the origin error, rendered on its
    own, gives the second half of the README's line. *)
Example readme_example :
  let '(made, σ0) :=
    Laeh._x Sample.capture (VFun 10) (VBool true) (VFun 15) Sample.empty in
  match made with
  | Normal w =>
      let '(_, (_, σ1)) :=
        Laeh.invoke Sample.no_reentry Sample.host Sample.host_string
          Sample.capture w [VNull; VStr "files"] σ0 in
      calls σ1 = [Call Logic (VFun 15) [VNull; VStr "files"];
                  Call Handler (VFun 10) [VErr 1]] /\
      errors σ1 = [Sample.origin;
                   mkError "unexpected thing" VUndefined (Some 0)
                     Sample.thrown_sites] /\
      (forall text,
         Lean.prepareStackTrace Sample.cwd Sample.json Sample.host_string
           Sample.defaults
           (mkError "unexpected thing" VUndefined (Some 0) Sample.thrown_sites)
           (Some text) Sample.thrown_sites
         = "unexpected thing < ./ex1.js(9) << " +:+ text) /\
      Lean.segment Sample.cwd Sample.json Sample.host_string Sample.defaults
        Sample.origin
      = "./ex1.js(7 < 13)"
  | Throw _ => False
  end.
Proof. repeat split; reflexivity. Qed.

End ChainSpec.


(** ** Path shortening and the hiding test *)

Module PathFacts.
Import Lean StrFacts LeanFacts.

Lemma prefix_append (p r : string) : String.prefix p (p +:+ r) = true.
Proof.
  induction p as [|c p IH]; [now destruct r |].
  rewrite append_cons. cbn [String.prefix].
  destruct (ascii_dec c c) as [_|Hc]; [exact IH | now destruct Hc].
Qed.

Lemma drop_append (p r : string) : Str.drop (String.length p) (p +:+ r) = r.
Proof.
  induction p as [|c p IH]; [now destruct r |].
  rewrite append_cons. exact IH.
Qed.

Lemma replace_first_absent (pat rep s : string) :
  Scan.occurs pat s = false -> Str.replace_first pat rep s = s.
Proof.
  induction s as [|c s IH]; cbn [Scan.occurs Str.replace_first]; intros H;
    apply orb_false_iff in H; destruct H as [Hp Hs]; rewrite Hp.
  - reflexivity.
  - now rewrite IH.
Qed.

Lemma replace_all_absent (pat rep s : string) :
  Scan.occurs pat s = false -> Str.replace_all pat rep s = s.
Proof.
  unfold Str.replace_all.
  induction s as [|c s IH]; cbn [Scan.occurs Str.replace_all_from]; intros H.
  - reflexivity.
  - apply orb_false_iff in H. destruct H as [Hp Hs]. rewrite Hp.
    now rewrite IH.
Qed.

Lemma laeh2_js_here_inv (s : string) :
  Str.laeh2_js_here s = true ->
  exists c, s = "laeh2" +:+ String c "js" /\ Str.line_terminator c = false.
Proof.
  intros H.
  do 5 (destruct s as [|[[] [] [] [] [] [] [] []] s]; try discriminate H).
  destruct s as [|c s]; [discriminate H |].
  do 2 (destruct s as [|[[] [] [] [] [] [] [] []] s]; try discriminate H).
  destruct s; [| discriminate H].
  exists c. split; [reflexivity | now apply negb_true_iff].
Qed.

(** X1. The expression of line 101 accepts exactly the names that end in
    [laeh2], one character other than a line terminator, and [js]: the dot
    of [laeh2.js] is a wildcard, so names such as [xlaeh2_js] are taken for
    the library as well. *)
Theorem laeh2_pattern_matches (s : string) :
  Str.matches_laeh2 s = true <->
  exists p c, s = p +:+ ("laeh2" +:+ String c "js") /\
              Str.line_terminator c = false.
Proof.
  split.
  - induction s as [|a s IH]; cbn [Str.matches_laeh2]; intros H.
    + discriminate H.
    + apply orb_true_iff in H. destruct H as [H|H].
      * apply laeh2_js_here_inv in H. destruct H as (c & -> & Hc).
        exists EmptyString, c. now split.
      * destruct (IH H) as (p & c & -> & Hc).
        exists (String a p), c. now split.
  - intros (p & c & -> & Hc).
    induction p as [|a p IH].
    + rewrite append_nil.
      assert (Hh : Str.laeh2_js_here ("laeh2" +:+ String c "js")
                   = negb (Str.line_terminator c)) by reflexivity.
      assert (Hm : Str.matches_laeh2 ("laeh2" +:+ String c "js") = true).
      { change (Str.matches_laeh2 ("laeh2" +:+ String c "js"))
          with (Str.laeh2_js_here ("laeh2" +:+ String c "js")
                || Str.matches_laeh2 ("aeh2" +:+ String c "js"))%bool.
        now rewrite Hh, Hc. }
      exact Hm.
    + rewrite append_cons. cbn [Str.matches_laeh2]. rewrite IH.
      apply orb_true_r.
Qed.

Section Paths.

Variable cwd : string.
Variable cfg : config.

Local Abbreviation shorten := (shorten cwd).
Local Abbreviation hidden := (hidden cfg).

Lemma nonempty_append (a b : string) :
  nonempty a = true -> nonempty (a +:+ b) = true.
Proof. now destruct a. Qed.

Lemma shorten_under_cwd (rest : string) :
  nonempty cwd = true ->
  shorten (Some (cwd +:+ rest))
  = "." +:+ Str.replace_all "node_modules" "$" rest.
Proof.
  intros Hcwd. unfold Lean.shorten. rewrite nonempty_append by assumption.
  assert (R : Str.replace_first cwd "." (cwd +:+ rest) = "." +:+ rest).
  { destruct cwd as [|c0 cw] eqn:Ec; [discriminate |]. rewrite <- Ec.
    assert (Hx : cwd +:+ rest = String c0 (cw +:+ rest)) by now rewrite Ec.
    rewrite Hx at 1. cbn [Str.replace_first]. rewrite <- Hx.
    now rewrite prefix_append, drop_append. }
  rewrite R. reflexivity.
Qed.

(** X2. A file under the working directory is shown relative to it: the
    directory becomes [.] and every [node_modules] of the rest becomes
    [$]. Such a frame passes the path test of hiding, and is skipped only
    when it is taken for the library. *)
Theorem working_directory_becomes_dot (rest : string) :
  nonempty cwd = true ->
  shorten (Some (cwd +:+ rest))
  = "." +:+ Str.replace_all "node_modules" "$" rest /\
  hidden (shorten (Some (cwd +:+ rest)))
  = (hiding cfg && Str.matches_laeh2 (shorten (Some (cwd +:+ rest))))%bool.
Proof.
  intros Hcwd. split; [now apply shorten_under_cwd |].
  rewrite shorten_under_cwd by assumption. unfold Lean.hidden. reflexivity.
Qed.

(** X3. A dependency under the working directory is shown as [./$/...]. *)
Theorem dependency_directory_becomes_dollar (rest : string) :
  nonempty cwd = true ->
  shorten (Some (cwd +:+ "/node_modules/" +:+ rest))
  = "./$/" +:+ Str.replace_all "node_modules" "$" rest.
Proof.
  intros Hcwd. rewrite shorten_under_cwd by assumption. reflexivity.
Qed.

(** X4. A name in which neither the working directory nor [node_modules]
    occurs is left as it is. *)
Theorem other_names_are_kept (name : string) :
  nonempty name = true ->
  Scan.occurs cwd name = false ->
  Scan.occurs "node_modules" name = false ->
  shorten (Some name) = name.
Proof.
  intros Hn Hc Hm. unfold Lean.shorten. rewrite Hn.
  rewrite replace_first_absent by assumption.
  now apply replace_all_absent.
Qed.

End Paths.

Lemma working_directory_becomes_dot_sample :
  nonempty Sample.cwd = true /\
  Lean.shorten Sample.cwd (Some (Sample.cwd +:+ "/lib/laeh2.js"))
  = "./lib/laeh2.js".
Proof.
  split; [reflexivity |].
  exact (proj1 (working_directory_becomes_dot Sample.cwd Sample.defaults
                  "/lib/laeh2.js" eq_refl)).
Defined.

Lemma dependency_directory_becomes_dollar_sample :
  nonempty Sample.cwd = true /\
  Lean.shorten Sample.cwd (getFileName Scan.vendored_site)
  = "./$/redis/index.js".
Proof.
  split; [reflexivity |].
  exact (dependency_directory_becomes_dollar Sample.cwd "redis/index.js"
           eq_refl).
Defined.

Lemma other_names_are_kept_sample :
  nonempty "module.js" = true /\
  Lean.shorten Sample.cwd (getFileName Scan.core_site) = "module.js".
Proof.
  split; [reflexivity |].
  exact (other_names_are_kept Sample.cwd "module.js" eq_refl eq_refl eq_refl).
Defined.

End PathFacts.

(** ** More on the frame loop and the composition *)

Module LoopFacts.
Import Lean StrFacts LeanFacts.

Section Loop.

Variable cwd : string.
Variable JSON_stringify : value -> value -> string.
Variable host_string : value -> string.
Variable cfg : config.

Local Abbreviation shorten := (shorten cwd).
Local Abbreviation hidden := (hidden cfg).
Local Abbreviation located := (located cwd).
Local Abbreviation survivors := (survivors cwd cfg).
Local Abbreviation entries := (entries cwd cfg).
Local Abbreviation prepareStackTrace :=
  (prepareStackTrace cwd JSON_stringify host_string cfg).

Lemma survivors_append (s1 s2 : list CallSite) :
  survivors (s1 ++ s2) = survivors s1 ++ survivors s2.
Proof.
  unfold Lean.survivors, Lean.located.
  now rewrite map_app, List.filter_app.
Qed.

Lemma survivors_all_hidden (hs : list CallSite) :
  Forall (fun f => hidden (shorten (getFileName f)) = true) hs ->
  survivors hs = [].
Proof.
  induction 1 as [|f hs Hf _ IH]; [reflexivity |].
  rewrite survivors_cons, Hf. exact IH.
Qed.

(** X5. Frames that are skipped do not end a run: two frames of one file with
    skipped frames between them share an entry. *)
Theorem skipped_frames_do_not_split_runs (s1 hs s2 : list CallSite) :
  Forall (fun f => hidden (shorten (getFileName f)) = true) hs ->
  entries (s1 ++ hs ++ s2) = entries (s1 ++ s2).
Proof.
  intros Hh. rewrite !entries_runs, !survivors_append.
  now rewrite (survivors_all_hidden hs Hh).
Qed.

(** X6. Without hiding no frame is skipped: the entries are the runs of all
    the frames, core files and the library included. *)
Theorem without_hiding_every_frame_is_shown (s : list CallSite) :
  hiding cfg = false ->
  survivors s = located s /\
  entries s = map (render_run " < ") (runs (located s)) /\
  flatten (runs (located s)) = located s.
Proof.
  intros Hh.
  assert (E : survivors s = located s).
  { unfold Lean.survivors. induction (Lean.located cwd s) as [|p l IH];
      [reflexivity |].
    cbn [List.filter]. unfold Lean.hidden at 1. rewrite Hh. cbn [andb negb].
    now rewrite IH. }
  split; [exact E |]. split; [now rewrite entries_runs, E |].
  apply runs_flatten.
Qed.

(** X7. When every frame is skipped, or none was captured, there is no entry,
    and the text of an error without metadata is its message followed by
    the frame separator, or nothing at all without a message. *)
Theorem no_frame_left (e : Error) (s : list CallSite) :
  survivors s = [] -> truthy (meta e) = false ->
  entries s = [] /\
  prepareStackTrace e None s =
  if nonempty (message e)
  then message e +:+ or_default (frameSeparator cfg) " < "
  else EmptyString.
Proof.
  intros Hs Hm.
  assert (E : entries s = []) by now rewrite entries_runs, Hs.
  split; [exact E |].
  unfold Lean.prepareStackTrace. rewrite E, Hm.
  destruct (nonempty (message e)); cbn [String.concat];
    now rewrite ?append_nil, ?append_empty_r.
Qed.

End Loop.

(** X8. A separator passed as the empty string is replaced by the default, as
    one that is not passed. *)
Theorem empty_separator_is_default (cwd : string)
    (JSON_stringify : value -> value -> string)
    (host_string : value -> string) (h : bool) (indent : value)
    (e : Error) (prev_stack : option string) (s : list CallSite) :
  prepareStackTrace cwd JSON_stringify host_string
    (mkConfig h indent (Some EmptyString) (Some EmptyString)) e prev_stack s
  = prepareStackTrace cwd JSON_stringify host_string
      (mkConfig h indent None None) e prev_stack s.
Proof. reflexivity. Qed.

Lemma skipped_frames_do_not_split_runs_sample :
  Forall (fun f => Lean.hidden Sample.defaults
                     (Lean.shorten Sample.cwd (getFileName f)) = true)
    [Sample.site "/home/app/lib/laeh2.js" 65; Scan.core_site] /\
  Lean.entries Sample.cwd Sample.defaults
    ([Sample.site "/home/app/ex1.js" 7]
     ++ [Sample.site "/home/app/lib/laeh2.js" 65; Scan.core_site]
     ++ [Sample.site "/home/app/ex1.js" 13])
  = ["./ex1.js(7 < 13)"].
Proof.
  split; [repeat constructor |].
  apply (skipped_frames_do_not_split_runs Sample.cwd Sample.defaults
           [Sample.site "/home/app/ex1.js" 7]
           [Sample.site "/home/app/lib/laeh2.js" 65; Scan.core_site]
           [Sample.site "/home/app/ex1.js" 13]).
  repeat constructor.
Defined.

Lemma without_hiding_every_frame_is_shown_sample :
  hiding Scan.showing_all = false /\
  Lean.entries Sample.cwd Scan.showing_all Sample.origin_sites
  = ["./lib/laeh2.js(52)"; "./ex1.js(7 < 13)"; "module.js(432)"].
Proof.
  split; [reflexivity |].
  exact (proj1 (proj2 (without_hiding_every_frame_is_shown Sample.cwd
                         Scan.showing_all Sample.origin_sites eq_refl))).
Defined.

Lemma no_frame_left_sample :
  Lean.survivors Sample.cwd Sample.defaults [Scan.core_site] = [] /\
  Lean.prepareStackTrace Sample.cwd Sample.json Sample.host_string
    Sample.defaults (mkError "boom" VUndefined None [Scan.core_site]) None
    [Scan.core_site]
  = "boom < ".
Proof.
  split; [reflexivity |].
  exact (proj2 (no_frame_left Sample.cwd Sample.json Sample.host_string
                  Sample.defaults
                  (mkError "boom" VUndefined None [Scan.core_site])
                  [Scan.core_site] eq_refl eq_refl)).
Defined.

End LoopFacts.

(** ** More on the normalizer and the wrapper *)

Module WrapperFacts.
Import Lean Laeh LeanFacts LaehFacts StrFacts.

Section Library.

Variable reentry : fun_id -> list value -> heap -> value.
Variable host : fun_id -> list value -> heap -> completion value * heap.
Variable host_string : value -> string.
Variable capture : nat -> list CallSite.

Local Abbreviation _e := (_e host_string capture).
Local Abbreviation _x := (_x capture).
Local Abbreviation attempt := (attempt host host_string capture).
Local Abbreviation invoke := (invoke reentry host host_string capture).
Local Abbreviation invoke_all := (invoke_all reentry host host_string capture).
Local Abbreviation linked := (linked host_string capture).

(** X9. [_x] tests [cb] first and [func] next: a truthy [cb] that is not a
    function, then a [func] that is not a function, make it throw a new
    error and return no wrapper; otherwise it returns the closure with a
    new origin error. In each case one error is added to the store and
    nothing is called. *)
Theorem construction_guards (cb chk func : value) (σ : world) :
  (truthy cb = true -> is_function cb = false ->
   _x cb chk func σ =
   (Throw (VErr (length (errors σ))),
    mkWorld (errors σ ++
               [mkError "cb is not a function" VUndefined None (capture 47)])
            (calls σ))) /\
  (truthy cb = false \/ is_function cb = true ->
   is_function func = false ->
   _x cb chk func σ =
   (Throw (VErr (length (errors σ))),
    mkWorld (errors σ ++
               [mkError "func is not a function" VUndefined None (capture 50)])
            (calls σ))) /\
  (truthy cb = false \/ is_function cb = true ->
   is_function func = true ->
   _x cb chk func σ =
   (Normal (mkWrapper cb chk func (length (errors σ))),
    mkWorld (errors σ ++ [mkError EmptyString VUndefined None (capture 52)])
            (calls σ))).
Proof.
  unfold Laeh._x. split; [| split].
  - intros Ht Hf. now rewrite Ht, Hf.
  - intros Hcb Hf.
    assert (E : (truthy cb && negb (is_function cb))%bool = false).
    { destruct Hcb as [H|H]; rewrite H; [reflexivity | apply andb_false_r]. }
    now rewrite E, Hf.
  - intros Hcb Hf.
    assert (E : (truthy cb && negb (is_function cb))%bool = false).
    { destruct Hcb as [H|H]; rewrite H; [reflexivity | apply andb_false_r]. }
    now rewrite E, Hf.
Qed.

(** X10. When the first argument is not checked, or is falsy, and the wrapped
    logic returns, the call of the wrapper returns: the value of the logic
    is dropped, no handler is called, and the wrapper adds no error and
    links none. Without the check even an error passed first goes to the
    logic. *)
Theorem success_is_silent (w : wrapper) (a : list value) (σ : world)
    (f : fun_id) (x : value) :
  w_func w = VFun f ->
  truthy (w_chk w) = false \/ truthy (first_arg a) = false ->
  fst (host f a (errors σ)) = Normal x ->
  snd (invoke w a σ) =
  (Normal tt,
   mkWorld (snd (host f a (errors σ))) (calls σ ++ [Call Logic (VFun f) a])).
Proof.
  intros Hf Hchk Hx.
  destruct (adopt_fixed w a) as (Hc & Hfn & _).
  assert (Hatt : attempt (adopt w a) a σ =
                 (Normal x,
                  mkWorld (snd (host f a (errors σ)))
                          (calls σ ++ [Call Logic (VFun f) a]))).
  { rewrite attempt_pass by now rewrite Hc.
    rewrite Hfn, Hf, call_function. now rewrite Hx. }
  exact (invoke_passed reentry host host_string capture w a x σ _ Hatt).
Qed.

Lemma invoke_all_fixed (todo : list ((heap -> heap) * list value)) :
  forall (w : wrapper) (σ : world),
    w_chk (fst (invoke_all w todo σ)) = w_chk w /\
    w_func (fst (invoke_all w todo σ)) = w_func w /\
    w_prev (fst (invoke_all w todo σ)) = w_prev w.
Proof.
  induction todo as [|[between a] todo IH]; intros w σ; [now repeat split |].
  cbn [Laeh.invoke_all].
  set (σ0 := mkWorld (between (errors σ)) (calls σ)).
  pose proof (invoke_fst reentry host host_string capture w a σ0) as Hw.
  destruct (invoke w a σ0) as [w' [cpl σ']]. cbn [fst] in Hw. subst w'.
  destruct (IH (reentered reentry (adopt w a) a σ0) σ') as (H1 & H2 & H3).
  destruct (reentered_fixed reentry (adopt w a) a σ0) as (R1 & R2 & R3).
  destruct (adopt_fixed w a) as (A1 & A2 & A3).
  rewrite H1, H2, H3, R1, R2, R3. now repeat split.
Qed.

(** X11. Whatever calls are made, the closure keeps its [chk], its [func] and
    its origin error; a handler given to [_x] is kept too, and every
    handler call goes to it, whatever functions the arguments end with. *)
Theorem closure_is_fixed (w : wrapper)
    (todo : list ((heap -> heap) * list value)) (σ : world) :
  let wk := fst (invoke_all w todo σ) in
  (w_chk wk = w_chk w /\ w_func wk = w_func w /\ w_prev wk = w_prev w) /\
  (truthy (w_cb w) = true ->
   w_cb wk = w_cb w /\
   exists evs,
     calls (snd (invoke_all w todo σ)) = calls σ ++ evs /\
     Forall (fun ev => ev_role ev = Handler -> ev_callee ev = w_cb w) evs).
Proof.
  cbn zeta. split; [apply invoke_all_fixed |].
  intros Hcb.
  exact (invoke_all_keeps reentry host host_string capture (w_cb w) todo w σ
           Hcb eq_refl).
Qed.



(** X16. When the wrapped logic calls the wrapper it runs in with a function
    [g] as last argument while the closure holds no handler, the closure
    holds [g] from then on, and what the logic raises afterwards is handed
    to [g]: the call of the wrapper is not fatal, although no handler was
    given to [_x] and its own last argument is not a function. *)
Theorem reentry_settles_handler (w : wrapper) (a : list value)
    (σ σ1 : world) (f g : fun_id) (v : value) :
  truthy (w_cb w) = false ->
  match last a with Some x => is_function x = false | None => True end ->
  (truthy (w_chk w) && truthy (first_arg a))%bool = false ->
  w_func w = VFun f ->
  reentry f a (errors σ) = VFun g ->
  attempt (adopt w a) a σ = (Throw v, σ1) ->
  w_cb (fst (invoke w a σ)) = VFun g /\
  snd (invoke w a σ) =
  (returned (fst (host g [VErr (fst (linked w v (errors σ1)))]
                    (snd (linked w v (errors σ1))))),
   mkWorld (snd (host g [VErr (fst (linked w v (errors σ1)))]
                   (snd (linked w v (errors σ1)))))
           (calls σ1 ++
              [Call Handler (VFun g) [VErr (fst (linked w v (errors σ1)))]])).
Proof.
  intros Hcb Hlast Hc Hf Hg Hatt.
  assert (Hre : reentered reentry (adopt w a) a σ
                = mkWrapper (VFun g) (w_chk w) (w_func w) (w_prev w)).
  { rewrite (adopt_none w a Hcb Hlast).
    exact (reentered_adopts reentry
             (mkWrapper VNull (w_chk w) (w_func w) (w_prev w)) a σ f g
             eq_refl Hc Hf Hg). }
  split; [now rewrite invoke_fst, Hre |].
  rewrite (invoke_raised reentry host host_string capture w a v σ σ1 Hatt).
  rewrite Hre.
  rewrite (recover_handler host host_string capture
             (mkWrapper (VFun g) (w_chk w) (w_func w) (w_prev w)) v g σ1
             eq_refl).
  reflexivity.
Qed.

(** X14. What [_e] throws is always an [Error], thrown for a truthy argument
    only and without any call; passing it to [_e] again throws the same
    error and leaves the store as it is, so an error is wrapped once
    however many checks it goes through. *)
Theorem rethrow_keeps_the_error (v m x : value) (σ σ' : world) :
  _e v m σ = (Throw x, σ') ->
  exists r,
    x = VErr r /\ truthy v = true /\ calls σ' = calls σ /\
    _e x VUndefined σ' = (Throw x, σ').
Proof.
  intros H.
  destruct (truthy v) eqn:Ht; [| rewrite _e_falsy in H by assumption;
                                 discriminate H].
  pose proof (_e_calls host_string capture v m σ) as Hc.
  rewrite H in Hc. cbn [snd] in Hc.
  destruct (instanceof_Error v) eqn:Hi.
  - destruct v as [| | | | | | | |r]; try discriminate Hi.
    rewrite _e_error in H. injection H as <- <-.
    exists r. split; [reflexivity |]. split; [reflexivity |].
    split; [exact Hc |].
    rewrite _e_error. cbn [truthy]. now rewrite world_eta.
  - rewrite _e_other in H by assumption. injection H as <- <-.
    eexists. split; [reflexivity |]. split; [reflexivity |].
    split; [reflexivity |].
    rewrite _e_error. cbn [truthy]. reflexivity.
Qed.

End Library.

Section EndToEnd.

Variable reentry : fun_id -> list value -> heap -> value.
Variable host : fun_id -> list value -> heap -> completion value * heap.
Variable host_string : value -> string.
Variable capture : nat -> list CallSite.
Variable cwd : string.
Variable JSON_stringify : value -> value -> string.
Variable cfg : config.

Local Abbreviation attempt := (attempt host host_string capture).
Local Abbreviation invoke := (invoke reentry host host_string capture).
Local Abbreviation entries := (entries cwd cfg).
Local Abbreviation prepareStackTrace :=
  (prepareStackTrace cwd JSON_stringify host_string cfg).


End EndToEnd.

Lemma construction_guards_sample :
  truthy (VStr "next") = true /\ is_function (VStr "next") = false /\
  Laeh._x Sample.capture (VStr "next") (VBool true) (VFun 11) Sample.empty
  = (Throw (VErr 0),
     mkWorld [mkError "cb is not a function" VUndefined None (Sample.capture 47)]
             []).
Proof.
  split; [reflexivity |]. split; [reflexivity |].
  exact (proj1 (construction_guards Sample.capture (VStr "next") (VBool true)
                  (VFun 11) Sample.empty) eq_refl eq_refl).
Defined.

Lemma success_is_silent_sample :
  w_func Cases.unchecked = VFun 12 /\
  truthy (w_chk Cases.unchecked) = false /\
  snd (Laeh.invoke Sample.no_reentry Sample.host Sample.host_string Sample.capture
         Cases.unchecked [VErr 0; VStr "data"] Cases.started)
  = (Normal tt,
     mkWorld [Sample.origin] [Call Logic (VFun 12) [VErr 0; VStr "data"]]).
Proof.
  split; [reflexivity |]. split; [reflexivity |].
  exact (success_is_silent Sample.no_reentry Sample.host Sample.host_string Sample.capture
           Cases.unchecked [VErr 0; VStr "data"] Cases.started 12 VUndefined
           eq_refl (or_introl eq_refl) eq_refl).
Defined.

Lemma closure_is_fixed_sample :
  truthy (w_cb Cases.quiet) = true /\
  w_cb (fst (Laeh.invoke_all Sample.no_reentry Sample.host Sample.host_string Sample.capture
               Cases.quiet
               [(fun h => h, [VStr "failed"; VFun 13]);
                (fun h => h, [VNull; VFun 14])]
               Cases.started))
  = VFun 10.
Proof.
  split; [reflexivity |].
  exact (proj1 (proj2 (closure_is_fixed Sample.no_reentry Sample.host Sample.host_string
                         Sample.capture Cases.quiet
                         [(fun h => h, [VStr "failed"; VFun 13]);
                          (fun h => h, [VNull; VFun 14])]
                         Cases.started) eq_refl)).
Defined.



Lemma rethrow_keeps_the_error_sample :
  Laeh._e Sample.host_string Sample.capture (VStr "boom") (VObj 1) Sample.empty
  = (Throw (VErr 0),
     mkWorld [mkError "boom" (VObj 1) None (Sample.capture 31)] []) /\
  exists r,
    VErr 0 = VErr r /\ truthy (VStr "boom") = true /\
    calls (mkWorld [mkError "boom" (VObj 1) None (Sample.capture 31)] [])
    = calls Sample.empty /\
    Laeh._e Sample.host_string Sample.capture (VErr 0) VUndefined
      (mkWorld [mkError "boom" (VObj 1) None (Sample.capture 31)] [])
    = (Throw (VErr 0),
       mkWorld [mkError "boom" (VObj 1) None (Sample.capture 31)] []).
Proof.
  split; [reflexivity |].
  exact (rethrow_keeps_the_error Sample.host_string Sample.capture
           (VStr "boom") (VObj 1) (VErr 0) Sample.empty _ eq_refl).
Defined.


Lemma reentry_settles_handler_sample :
  let w := mkWrapper VNull (VBool true) (VFun 16) 0 in
  let a := [VNull; VStr "data"] in
  truthy (w_cb w) = false /\
  Sample.reentry_by_16 16 a [Sample.origin] = VFun 10 /\
  w_cb (fst (invoke Sample.reentry_by_16
               (fun f args h => if Nat.eqb f 16 then (Throw (VStr "x"), h)
                                else Sample.host f args h)
               Sample.host_string Sample.capture w a Cases.started))
  = VFun 10.
Proof.
  intros w a. split; [reflexivity |]. split; [reflexivity |].
  exact (proj1 (reentry_settles_handler Sample.reentry_by_16
                  (fun f args h => if Nat.eqb f 16 then (Throw (VStr "x"), h)
                                   else Sample.host f args h)
                  Sample.host_string Sample.capture w a Cases.started
                  (mkWorld [Sample.origin] [Call Logic (VFun 16) a])
                  16 10 (VStr "x")
                  eq_refl eq_refl eq_refl eq_refl eq_refl eq_refl)).
Defined.

End WrapperFacts.
